(** * layeredCanopyRT: a layered two-stream canopy scheme

    A shallow embedding of [layeredCanopyRT.py]: the Meador and Weaver
    two-stream solution of one canopy layer ([canopyLayer]) and the adding
    scheme that stacks the layers ([layeredCanopy]).

    Numbers.  The program computes on numpy floats.  They are modelled by
    real numbers extended with one value [NaN] that stands for every result
    numpy does not give a finite value to: the quotient by zero and the
    square root of a negative number (numpy returns [nan] or [inf] there,
    with a warning and without raising).  [NaN] is absorbing, as numpy's
    [nan] is.  Rounding and overflow are not modelled.

    Exceptions.  A method that can raise returns a [result]; the three loops
    of a flux pass thread the local variables and the list of layers. *)

From Stdlib Require Import Reals Lra Lia String List.
From stdpp Require Import base option list strings.

Open Scope string_scope.
Open Scope list_scope.

(** ** Numbers *)

Inductive num : Type :=
  | Fin (r : R)
  | NaN.

Declare Scope num_scope.
Delimit Scope num_scope with num.
Bind Scope num_scope with num.

Definition lift1 (f : R -> R) (x : num) : num :=
  match x with
  | Fin a => Fin (f a)
  | NaN => NaN
  end.

Definition lift2 (f : R -> R -> R) (x y : num) : num :=
  match x, y with
  | Fin a, Fin b => Fin (f a b)
  | _, _ => NaN
  end.

Definition nadd : num -> num -> num := lift2 Rplus.
Definition nsub : num -> num -> num := lift2 Rminus.
Definition nmul : num -> num -> num := lift2 Rmult.
Definition nopp : num -> num := lift1 Ropp.
Definition nabs : num -> num := lift1 Rabs.
Definition nexp : num -> num := lift1 exp.

(** [x / y]: no finite value when the divisor is zero. *)
Definition ndiv (x y : num) : num :=
  match x, y with
  | Fin a, Fin b => if Req_dec_T b 0 then NaN else Fin (a / b)
  | _, _ => NaN
  end.

(** [np.sqrt]: [nan] below zero. *)
Definition nsqrt (x : num) : num :=
  match x with
  | Fin a => if Rlt_dec a 0 then NaN else Fin (sqrt a)
  | NaN => NaN
  end.

Notation "x + y" := (nadd x y) : num_scope.
Notation "x - y" := (nsub x y) : num_scope.
Notation "x * y" := (nmul x y) : num_scope.
Notation "x / y" := (ndiv x y) : num_scope.
Notation "- x" := (nopp x) : num_scope.



(** ** Exceptions *)

Inductive exn : Type :=
  | TypeError (msg arg : string)
  | AttributeError (attr : string)
  | IndexError.

Inductive result (A : Type) : Type :=
  | Ok (a : A)
  | Raise (e : exn).

Arguments Ok {A} a.
Arguments Raise {A} e.

#[global] Instance result_ret : MRet result := fun A a => Ok a.
#[global] Instance result_bind : MBind result := fun A B f m =>
  match m with
  | Ok a => f a
  | Raise e => Raise e
  end.


(** [o.name], for an attribute that exists only once it has been assigned. *)
Definition getattr (name : string) (o : option num) : result num :=
  match o with
  | Some v => Ok v
  | None => Raise (AttributeError name)
  end.

(** [ls[i]] for an index that is not negative. *)
Definition getitem {A} (ls : list A) (i : nat) : result A :=
  match ls !! i with
  | Some l => Ok l
  | None => Raise IndexError
  end.

(** [for i in idx: s = body(i, s)], stopping at the first exception. *)
Fixpoint for_each {S} (body : nat -> S -> result S) (idx : list nat) (s : S)
  : result S :=
  match idx with
  | [] => Ok s
  | i :: rest => s' ← body i s; for_each body rest s'
  end.

(** [xrange(n)] and [xrange(n-1,-1,-1)]. *)
Definition xrange (n : nat) : list nat := seq 0 n.
Definition xrange_down (n : nat) : list nat := rev (seq 0 n).

(** ** The geometry of the leaves *)

Module leafGeometry.

(** Modelled from the spec: the base class [leafGeometry], imported from a
    module that is not among the sources.  A layer inherits from it the
    projection function [G], the path-length modifier [Z], the upscatter
    fractions [B_direct()] and [B_diffuse()], and [muBar()]; the methods
    without argument are given by the value they return for the layer. *)
Record t : Type := {
  G : num -> num;
  Z : num -> num;
  B_direct : num;
  B_diffuse : num;
  muBar : num
}.

End leafGeometry.

(** ** One canopy layer *)

Module canopyLayer.

Record t : Type := {
  geometry : leafGeometry.t;
  mu : num;
  leaf_r : num;
  leaf_t : num;
  lai : num;
  gamma_scaling_diffuse : string;
  gamma_scaling_direct : string;
  (* the attributes a flux pass assigns; they do not exist before *)
  Iup_dif : option num;
  Idn_dif : option num;
  Iab_dif : option num;
  Iup_dir_u : option num;
  Iup_dir_c : option num;
  Idn_dir_u : option num;
  Idn_dir_c : option num;
  Iup_dir : option num;
  Idn_dir : option num;
  Iab_dir : option num;
  Iup : option num;
  Idn : option num;
  Iab : option num
}.

(** [self.name = v] for each attribute a flux pass assigns. *)
Definition set_Iup_dif (v : option num) (self : t) : t :=
  {| geometry := geometry self; mu := mu self; leaf_r := leaf_r self;
     leaf_t := leaf_t self; lai := lai self;
     gamma_scaling_diffuse := gamma_scaling_diffuse self;
     gamma_scaling_direct := gamma_scaling_direct self; Iup_dif := v;
     Idn_dif := Idn_dif self; Iab_dif := Iab_dif self;
     Iup_dir_u := Iup_dir_u self; Iup_dir_c := Iup_dir_c self;
     Idn_dir_u := Idn_dir_u self; Idn_dir_c := Idn_dir_c self;
     Iup_dir := Iup_dir self; Idn_dir := Idn_dir self;
     Iab_dir := Iab_dir self; Iup := Iup self; Idn := Idn self;
     Iab := Iab self |}.

Definition set_Idn_dif (v : option num) (self : t) : t :=
  {| geometry := geometry self; mu := mu self; leaf_r := leaf_r self;
     leaf_t := leaf_t self; lai := lai self;
     gamma_scaling_diffuse := gamma_scaling_diffuse self;
     gamma_scaling_direct := gamma_scaling_direct self;
     Iup_dif := Iup_dif self; Idn_dif := v; Iab_dif := Iab_dif self;
     Iup_dir_u := Iup_dir_u self; Iup_dir_c := Iup_dir_c self;
     Idn_dir_u := Idn_dir_u self; Idn_dir_c := Idn_dir_c self;
     Iup_dir := Iup_dir self; Idn_dir := Idn_dir self;
     Iab_dir := Iab_dir self; Iup := Iup self; Idn := Idn self;
     Iab := Iab self |}.

Definition set_Iab_dif (v : option num) (self : t) : t :=
  {| geometry := geometry self; mu := mu self; leaf_r := leaf_r self;
     leaf_t := leaf_t self; lai := lai self;
     gamma_scaling_diffuse := gamma_scaling_diffuse self;
     gamma_scaling_direct := gamma_scaling_direct self;
     Iup_dif := Iup_dif self; Idn_dif := Idn_dif self; Iab_dif := v;
     Iup_dir_u := Iup_dir_u self; Iup_dir_c := Iup_dir_c self;
     Idn_dir_u := Idn_dir_u self; Idn_dir_c := Idn_dir_c self;
     Iup_dir := Iup_dir self; Idn_dir := Idn_dir self;
     Iab_dir := Iab_dir self; Iup := Iup self; Idn := Idn self;
     Iab := Iab self |}.

Definition set_Iup_dir_u (v : option num) (self : t) : t :=
  {| geometry := geometry self; mu := mu self; leaf_r := leaf_r self;
     leaf_t := leaf_t self; lai := lai self;
     gamma_scaling_diffuse := gamma_scaling_diffuse self;
     gamma_scaling_direct := gamma_scaling_direct self;
     Iup_dif := Iup_dif self; Idn_dif := Idn_dif self;
     Iab_dif := Iab_dif self; Iup_dir_u := v; Iup_dir_c := Iup_dir_c self;
     Idn_dir_u := Idn_dir_u self; Idn_dir_c := Idn_dir_c self;
     Iup_dir := Iup_dir self; Idn_dir := Idn_dir self;
     Iab_dir := Iab_dir self; Iup := Iup self; Idn := Idn self;
     Iab := Iab self |}.

Definition set_Iup_dir_c (v : option num) (self : t) : t :=
  {| geometry := geometry self; mu := mu self; leaf_r := leaf_r self;
     leaf_t := leaf_t self; lai := lai self;
     gamma_scaling_diffuse := gamma_scaling_diffuse self;
     gamma_scaling_direct := gamma_scaling_direct self;
     Iup_dif := Iup_dif self; Idn_dif := Idn_dif self;
     Iab_dif := Iab_dif self; Iup_dir_u := Iup_dir_u self; Iup_dir_c := v;
     Idn_dir_u := Idn_dir_u self; Idn_dir_c := Idn_dir_c self;
     Iup_dir := Iup_dir self; Idn_dir := Idn_dir self;
     Iab_dir := Iab_dir self; Iup := Iup self; Idn := Idn self;
     Iab := Iab self |}.

Definition set_Idn_dir_u (v : option num) (self : t) : t :=
  {| geometry := geometry self; mu := mu self; leaf_r := leaf_r self;
     leaf_t := leaf_t self; lai := lai self;
     gamma_scaling_diffuse := gamma_scaling_diffuse self;
     gamma_scaling_direct := gamma_scaling_direct self;
     Iup_dif := Iup_dif self; Idn_dif := Idn_dif self;
     Iab_dif := Iab_dif self; Iup_dir_u := Iup_dir_u self;
     Iup_dir_c := Iup_dir_c self; Idn_dir_u := v;
     Idn_dir_c := Idn_dir_c self; Iup_dir := Iup_dir self;
     Idn_dir := Idn_dir self; Iab_dir := Iab_dir self; Iup := Iup self;
     Idn := Idn self; Iab := Iab self |}.

Definition set_Idn_dir_c (v : option num) (self : t) : t :=
  {| geometry := geometry self; mu := mu self; leaf_r := leaf_r self;
     leaf_t := leaf_t self; lai := lai self;
     gamma_scaling_diffuse := gamma_scaling_diffuse self;
     gamma_scaling_direct := gamma_scaling_direct self;
     Iup_dif := Iup_dif self; Idn_dif := Idn_dif self;
     Iab_dif := Iab_dif self; Iup_dir_u := Iup_dir_u self;
     Iup_dir_c := Iup_dir_c self; Idn_dir_u := Idn_dir_u self;
     Idn_dir_c := v; Iup_dir := Iup_dir self; Idn_dir := Idn_dir self;
     Iab_dir := Iab_dir self; Iup := Iup self; Idn := Idn self;
     Iab := Iab self |}.

Definition set_Iup_dir (v : option num) (self : t) : t :=
  {| geometry := geometry self; mu := mu self; leaf_r := leaf_r self;
     leaf_t := leaf_t self; lai := lai self;
     gamma_scaling_diffuse := gamma_scaling_diffuse self;
     gamma_scaling_direct := gamma_scaling_direct self;
     Iup_dif := Iup_dif self; Idn_dif := Idn_dif self;
     Iab_dif := Iab_dif self; Iup_dir_u := Iup_dir_u self;
     Iup_dir_c := Iup_dir_c self; Idn_dir_u := Idn_dir_u self;
     Idn_dir_c := Idn_dir_c self; Iup_dir := v; Idn_dir := Idn_dir self;
     Iab_dir := Iab_dir self; Iup := Iup self; Idn := Idn self;
     Iab := Iab self |}.

Definition set_Idn_dir (v : option num) (self : t) : t :=
  {| geometry := geometry self; mu := mu self; leaf_r := leaf_r self;
     leaf_t := leaf_t self; lai := lai self;
     gamma_scaling_diffuse := gamma_scaling_diffuse self;
     gamma_scaling_direct := gamma_scaling_direct self;
     Iup_dif := Iup_dif self; Idn_dif := Idn_dif self;
     Iab_dif := Iab_dif self; Iup_dir_u := Iup_dir_u self;
     Iup_dir_c := Iup_dir_c self; Idn_dir_u := Idn_dir_u self;
     Idn_dir_c := Idn_dir_c self; Iup_dir := Iup_dir self; Idn_dir := v;
     Iab_dir := Iab_dir self; Iup := Iup self; Idn := Idn self;
     Iab := Iab self |}.

Definition set_Iab_dir (v : option num) (self : t) : t :=
  {| geometry := geometry self; mu := mu self; leaf_r := leaf_r self;
     leaf_t := leaf_t self; lai := lai self;
     gamma_scaling_diffuse := gamma_scaling_diffuse self;
     gamma_scaling_direct := gamma_scaling_direct self;
     Iup_dif := Iup_dif self; Idn_dif := Idn_dif self;
     Iab_dif := Iab_dif self; Iup_dir_u := Iup_dir_u self;
     Iup_dir_c := Iup_dir_c self; Idn_dir_u := Idn_dir_u self;
     Idn_dir_c := Idn_dir_c self; Iup_dir := Iup_dir self;
     Idn_dir := Idn_dir self; Iab_dir := v; Iup := Iup self; Idn := Idn self;
     Iab := Iab self |}.

Definition set_Iup (v : option num) (self : t) : t :=
  {| geometry := geometry self; mu := mu self; leaf_r := leaf_r self;
     leaf_t := leaf_t self; lai := lai self;
     gamma_scaling_diffuse := gamma_scaling_diffuse self;
     gamma_scaling_direct := gamma_scaling_direct self;
     Iup_dif := Iup_dif self; Idn_dif := Idn_dif self;
     Iab_dif := Iab_dif self; Iup_dir_u := Iup_dir_u self;
     Iup_dir_c := Iup_dir_c self; Idn_dir_u := Idn_dir_u self;
     Idn_dir_c := Idn_dir_c self; Iup_dir := Iup_dir self;
     Idn_dir := Idn_dir self; Iab_dir := Iab_dir self; Iup := v;
     Idn := Idn self; Iab := Iab self |}.

Definition set_Idn (v : option num) (self : t) : t :=
  {| geometry := geometry self; mu := mu self; leaf_r := leaf_r self;
     leaf_t := leaf_t self; lai := lai self;
     gamma_scaling_diffuse := gamma_scaling_diffuse self;
     gamma_scaling_direct := gamma_scaling_direct self;
     Iup_dif := Iup_dif self; Idn_dif := Idn_dif self;
     Iab_dif := Iab_dif self; Iup_dir_u := Iup_dir_u self;
     Iup_dir_c := Iup_dir_c self; Idn_dir_u := Idn_dir_u self;
     Idn_dir_c := Idn_dir_c self; Iup_dir := Iup_dir self;
     Idn_dir := Idn_dir self; Iab_dir := Iab_dir self; Iup := Iup self;
     Idn := v; Iab := Iab self |}.

Definition set_Iab (v : option num) (self : t) : t :=
  {| geometry := geometry self; mu := mu self; leaf_r := leaf_r self;
     leaf_t := leaf_t self; lai := lai self;
     gamma_scaling_diffuse := gamma_scaling_diffuse self;
     gamma_scaling_direct := gamma_scaling_direct self;
     Iup_dif := Iup_dif self; Idn_dif := Idn_dif self;
     Iab_dif := Iab_dif self; Iup_dir_u := Iup_dir_u self;
     Iup_dir_c := Iup_dir_c self; Idn_dir_u := Idn_dir_u self;
     Idn_dir_c := Idn_dir_c self; Iup_dir := Iup_dir self;
     Idn_dir := Idn_dir self; Iab_dir := Iab_dir self; Iup := Iup self;
     Idn := Idn self; Iab := v |}.
Definition G (self : t) : num -> num := leafGeometry.G (geometry self).
Definition Z (self : t) : num -> num := leafGeometry.Z (geometry self).
Definition B_direct (self : t) : num := leafGeometry.B_direct (geometry self).
Definition B_diffuse (self : t) : num := leafGeometry.B_diffuse (geometry self).
Definition muBar (self : t) : num := leafGeometry.muBar (geometry self).

Definition w (self : t) : num := (leaf_r self + leaf_t self)%num.
Definition d (self : t) : num := (leaf_r self - leaf_t self)%num.

(** The scale of the gamma coefficients for a scaling method. *)
Definition gamma_scale (self : t) (method : string) : result num :=
  if String.eqb method "delta" then
    Ok (Fin 1 / (G self (mu self) * muBar self))%num
  else if String.eqb method "quad" then
    Ok (nsqrt (Fin 3))
  else
    Raise (TypeError "Unknown gamma scaling type:%s" method).

Definition getGamma (self : t) (method : string)
  : result (num * num * num * num) :=
  let B := B_diffuse self in
  let B0 := B_direct self in
  scale ← gamma_scale self method;
  let g1 := ((Fin 1 - (Fin 1 - B) * w self) * scale)%num in
  let g2 := ((w self * B) * scale)%num in
  let g3 := B0 in
  let g4 := (Fin 1 - g3)%num in
  Ok (g1, g2, g3, g4).

Definition rtDirect (self : t) : result (num * num) :=
  '(g1, g2, g3, g4) ← getGamma self (gamma_scaling_direct self);
  let tau := (lai self * G self (mu self) * Z self (mu self))%num in
  let tauD := tau in
  let a1 := (g1 * g4 + g2 * g3)%num in
  let a2 := (g1 * g3 + g2 * g4)%num in
  let k := nsqrt (g1 * g1 - g2 * g2) in
  let D := ((Fin 1 - k * k * mu self * mu self)
            * ((k + g1) * nexp (k * tauD) + (k - g1) * nexp (- k * tauD)))%num in
  (* reflectance *)
  let F := ((Fin 1 - k * mu self) * (a2 + k * g3) * nexp (k * tauD))%num in
  let G := ((Fin 1 + k * mu self) * (a2 - k * g3) * nexp (- k * tauD))%num in
  let H := (Fin 2 * k * (g3 - a2 * mu self) * nexp (- tau / mu self))%num in
  let R := (w self / D * (F - G - H))%num in
  (* transmittance *)
  let F := ((Fin 1 + k * mu self) * (a1 + k * g4) * nexp (k * tauD))%num in
  let G := ((Fin 1 - k * mu self) * (a1 - k * g4) * nexp (- k * tauD))%num in
  let H := (Fin 2 * k * (g4 + a1 * mu self) * nexp (tau / mu self))%num in
  let T := (nexp (- tau / mu self) * (Fin 1 - w self / D * (F - G - H)))%num in
  Ok (R, T).

Definition tUncollidedDirect (self : t) : num :=
  nexp (- G self (mu self) * Z self (mu self) * lai self / mu self).

Definition rtDiffuse (self : t) : result (num * num) :=
  '(g1, g2, g3, g4) ← getGamma self (gamma_scaling_diffuse self);
  let tau := (lai self * G self (mu self) * Z self (mu self))%num in
  let k := nsqrt (g1 * g1 - g2 * g2) in
  let D := (k + g1 + (k - g1) * nexp (- Fin 2 * k * tau))%num in
  let R := ((g2 * (Fin 1 - nexp (- Fin 2 * k * tau))) / D)%num in
  let T := ((Fin 2 * k * nexp (- k * tau)) / D)%num in
  Ok (R, T).

End canopyLayer.

(** ** The stack of layers *)

Module layeredCanopy.

Import canopyLayer.

(** [nLayers] is the length of [layers]: the constructor builds the list with
    [nLayers] layers, each a new object, and nothing else assigns either.
    Index 0 is the top layer. *)
Record t : Type := {
  mu : num;
  lower_boundary_r : num;
  propDif : num;
  layers : list canopyLayer.t
}.

Definition nLayers (self : t) : nat := length (layers self).

Definition set_layers (ls : list canopyLayer.t) (self : t) : t :=
  {| mu := mu self; lower_boundary_r := lower_boundary_r self;
     propDif := propDif self; layers := ls |}.

(** One turn of a loop whose body works on the object [self.layers[layer]]
    alone: [body] gets the local variables and that object, and gives them
    back as the turn leaves them. *)
Definition at_layer {X} (body : X -> canopyLayer.t -> result (X * canopyLayer.t))
    (layer : nat) (s : X * list canopyLayer.t)
  : result (X * list canopyLayer.t) :=
  let '(x, ls) := s in
  o ← getitem ls layer;
  '(x, o) ← body x o;
  Ok (x, <[layer := o]> ls).

(** [o.name *= T] *)
Definition imul (name : string) (get : canopyLayer.t -> option num)
    (set : option num -> canopyLayer.t -> canopyLayer.t) (T : num)
    (o : canopyLayer.t) : result canopyLayer.t :=
  v ← getattr name (get o);
  Ok (set (Some (v * T)%num) o).

(** The loop that closes the energy balance of each layer, the same in both
    passes but for the attributes it reads ([Iup_*], [Idn_*]) and the one it
    assigns ([Iab_*]). *)
Definition absorption (up dn : string) (get_up get_dn : canopyLayer.t -> option num)
    (set_ab : option num -> canopyLayer.t -> canopyLayer.t)
    (nLayers : nat) (lower_boundary_r : num)
    (layer : nat) (ls : list canopyLayer.t) : result (list canopyLayer.t) :=
  Idn_above ←
    (if Nat.eqb layer 0 then Ok (Fin 1)
     else o ← getitem ls (layer - 1); getattr dn (get_dn o));
  Iup_below ←
    (if Nat.eqb layer (nLayers - 1) then
       o ← getitem ls layer;
       v ← getattr dn (get_dn o);
       Ok (v * lower_boundary_r)%num
     else o ← getitem ls (layer + 1); getattr up (get_up o));
  o ← getitem ls layer;
  Idn ← getattr dn (get_dn o);
  Iup ← getattr up (get_up o);
  let o := set_ab (Some (nabs (Iup_below - Iup + Idn_above - Idn))) o in
  Ok (<[layer := o]> ls).

(** *** Diffuse illumination *)

(** First loop of [getFluxesCanopyDif]: adding, from the lowest layer up. *)
Definition dif_adding (R_last : num) (o : canopyLayer.t)
  : result (num * canopyLayer.t) :=
  '(R, T) ← rtDiffuse o;
  let Z := (R_last * R)%num in
  let R := (R + T * T * R_last * (Fin 1 + Z / (Fin 1 - Z)))%num in
  let T := (T * (Fin 1 + Z / (Fin 1 - Z)))%num in
  let R_last := R in
  let o := set_Iup_dif (Some R_last) o in
  let o := set_Idn_dif (Some T) o in
  Ok (R_last, o).

(** Second loop: normalising by the total transmission, from the top down. *)
Definition dif_normalise (T : num) (o : canopyLayer.t)
  : result (num * canopyLayer.t) :=
  t ← getattr "Idn_dif" (Idn_dif o);
  o ← imul "Iup_dif" Iup_dif set_Iup_dif T o;
  o ← imul "Idn_dif" Idn_dif set_Idn_dif T o;
  let T := (T * t)%num in
  Ok (T, o).

(** Third loop: the absorption of each layer from the energy balance. *)
Definition dif_absorption : nat -> num -> nat -> list canopyLayer.t
                            -> result (list canopyLayer.t) :=
  absorption "Iup_dif" "Idn_dif" Iup_dif Idn_dif set_Iab_dif.

Definition getFluxesCanopyDif (self : t) : result t :=
  let R_last := lower_boundary_r self in
  '(_, ls) ← for_each (at_layer dif_adding) (xrange_down (nLayers self))
                (R_last, layers self);
  let T := Fin 1 in
  '(_, ls) ← for_each (at_layer dif_normalise) (xrange (nLayers self)) (T, ls);
  ls ← for_each (dif_absorption (nLayers self) (lower_boundary_r self))
         (xrange (nLayers self)) ls;
  Ok (set_layers ls self).

(** *** Direct illumination *)

(** First loop of [getFluxesCanopyDir]: adding, from the lowest layer up.
    [Ru], [Tu] arise from the uncollided beam, [Rc], [Tc] from collided
    radiation. *)
Definition dir_adding (last : num * num) (o : canopyLayer.t)
  : result (num * num * canopyLayer.t) :=
  let '(Ru_last, Rc_last) := last in
  '(Ru, Tu) ← rtDirect o;
  '(Rc, Tc) ← rtDiffuse o;
  let U := tUncollidedDirect o in
  let Z := (Rc_last * Rc)%num in
  (* collimated beam *)
  let RuNew := (Ru + U * Ru_last * Tc * (Fin 1 + Z / (Fin 1 - Z))
                + (Tu - U) * Rc_last * Tc * (Fin 1 + Z / (Fin 1 - Z)))%num in
  let TuNew := (U + U * Ru_last * Rc * (Fin 1 + Z / (Fin 1 - Z))
                + (Tu - U) * (Fin 1 + Z / (Fin 1 - Z)))%num in
  (* collided radiation *)
  let RcNew := (Rc + Tc * Rc_last * Tc * (Fin 1 + Z / (Fin 1 - Z)))%num in
  let TcNew := (Tc * (Fin 1 + Z / (Fin 1 - Z)))%num in
  let Ru_last := RuNew in
  let Rc_last := RcNew in
  let o := set_Iup_dir_u (Some RuNew) o in
  let o := set_Iup_dir_c (Some RcNew) o in
  let o := set_Idn_dir_u (Some TuNew) o in
  let o := set_Idn_dir_c (Some TcNew) o in
  Ok (Ru_last, Rc_last, o).

(** Second loop: normalising by the total transmission, from the top down. *)
Definition dir_normalise (total : num * num) (o : canopyLayer.t)
  : result (num * num * canopyLayer.t) :=
  let '(Tu, Tc) := total in
  o ← imul "Iup_dir_u" Iup_dir_u set_Iup_dir_u Tu o;
  o ← imul "Idn_dir_u" Idn_dir_u set_Idn_dir_u Tu o;
  o ← imul "Iup_dir_c" Iup_dir_c set_Iup_dir_c Tc o;
  o ← imul "Idn_dir_c" Idn_dir_c set_Idn_dir_c Tc o;
  c ← getattr "Iup_dir_c" (Iup_dir_c o);
  u ← getattr "Iup_dir_u" (Iup_dir_u o);
  let o := set_Iup_dir (Some (c + u)%num) o in
  c ← getattr "Idn_dir_c" (Idn_dir_c o);
  u ← getattr "Idn_dir_u" (Idn_dir_u o);
  let o := set_Idn_dir (Some (c + u)%num) o in
  (* the uncollided radiation incident on the next layer down *)
  let U := tUncollidedDirect o in
  let Tu := (Tu * U)%num in
  (* downward source term *)
  u ← getattr "Idn_dir_u" (Idn_dir_u o);
  let S := (u - Tu)%num in
  (* total collided radiation *)
  c ← getattr "Idn_dir_c" (Idn_dir_c o);
  let Tc := (c + S)%num in
  Ok (Tu, Tc, o).

(** Third loop: the absorption of each layer from the energy balance. *)
Definition dir_absorption : nat -> num -> nat -> list canopyLayer.t
                            -> result (list canopyLayer.t) :=
  absorption "Iup_dir" "Idn_dir" Iup_dir Idn_dir set_Iab_dir.

Definition getFluxesCanopyDir (self : t) : result t :=
  let Ru_last := lower_boundary_r self in
  let Rc_last := lower_boundary_r self in
  '(_, ls) ← for_each (at_layer dir_adding) (xrange_down (nLayers self))
                (Ru_last, Rc_last, layers self);
  let Tu := Fin 1 in
  let Tc := Fin 0 in
  '(_, ls) ← for_each (at_layer dir_normalise) (xrange (nLayers self))
                (Tu, Tc, ls);
  ls ← for_each (dir_absorption (nLayers self) (lower_boundary_r self))
         (xrange (nLayers self)) ls;
  Ok (set_layers ls self).

(** *** Blending the two illuminations *)

Definition blend (p : num) (_ : unit) (o : canopyLayer.t)
  : result (unit * canopyLayer.t) :=
  a ← getattr "Iup_dir" (Iup_dir o);
  b ← getattr "Iup_dif" (Iup_dif o);
  let o := set_Iup (Some ((Fin 1 - p) * a + p * b)%num) o in
  a ← getattr "Idn_dir" (Idn_dir o);
  b ← getattr "Idn_dif" (Idn_dif o);
  let o := set_Idn (Some ((Fin 1 - p) * a + p * b)%num) o in
  a ← getattr "Iab_dir" (Iab_dir o);
  b ← getattr "Iab_dif" (Iab_dif o);
  let o := set_Iab (Some ((Fin 1 - p) * a + p * b)%num) o in
  Ok (tt, o).

Definition getFluxes (self : t) : result t :=
  let p := propDif self in
  self ← getFluxesCanopyDir self;
  self ← getFluxesCanopyDif self;
  '(_, ls) ← for_each (at_layer (blend p)) (xrange (nLayers self))
                (tt, layers self);
  Ok (set_layers ls self).

End layeredCanopy.

(** ** The passes as recursions over the stack

    The definitions of this part are not in the program: they are what the
    loops of the program are proved to compute. *)

(** A loop over the layers from the top down, and from the bottom up. *)
Fixpoint scan_down {X A} (body : X -> A -> result (X * A)) (x : X)
    (ls : list A) : result (X * list A) :=
  match ls with
  | [] => Ok (x, [])
  | o :: below =>
      '(x, o) ← body x o;
      '(x, below) ← scan_down body x below;
      Ok (x, o :: below)
  end.

Fixpoint scan_up {X A} (body : X -> A -> result (X * A)) (x : X)
    (ls : list A) : result (X * list A) :=
  match ls with
  | [] => Ok (x, [])
  | o :: below =>
      '(x, below) ← scan_up body x below;
      '(x, o) ← body x o;
      Ok (x, o :: below)
  end.

Module Adding.

(** *** Diffuse illumination, in the words of the specification *)

(** Z = R_last·R; R_new = R + T²·R_last·(1+Z/(1-Z)); T_new = T·(1+Z/(1-Z)). *)
Definition combine_dif (R_last : num) (rt : num * num) : num * num :=
  let '(R, T) := rt in
  let Z := (R_last * R)%num in
  ((R + T * T * R_last * (Fin 1 + Z / (Fin 1 - Z)))%num,
   (T * (Fin 1 + Z / (Fin 1 - Z)))%num).

(** The reflectance of what lies below the stack [combined]. *)
Definition R_below (lower_boundary_r : num) (combined : list (num * num)) : num :=
  match combined with
  | [] => lower_boundary_r
  | (R, _) :: _ => R
  end.

(** Bottom-up combination: each layer with the accumulated stack below it. *)
Fixpoint adding_dif (lower_boundary_r : num) (rts : list (num * num))
  : list (num * num) :=
  match rts with
  | [] => []
  | rt :: below =>
      let combined := adding_dif lower_boundary_r below in
      combine_dif (R_below lower_boundary_r combined) rt :: combined
  end.

(** Top-down normalisation: each layer's (Iup, Idn) times the cumulative
    transmission [T] of the layers above, [T] then taking the layer's own. *)
Fixpoint normalise_dif (T : num) (stored : list (num * num))
  : list (num * num) :=
  match stored with
  | [] => []
  | (Iup, Idn) :: below =>
      ((Iup * T)%num, (Idn * T)%num) :: normalise_dif (T * Idn)%num below
  end.

(** Energy closure: Iab = |Iup_below − Iup + Idn_above − Idn|. *)
Fixpoint closure (lower_boundary_r : num) (Idn_above : num)
    (fluxes : list (num * num)) : list num :=
  match fluxes with
  | [] => []
  | (Iup, Idn) :: below =>
      let Iup_below :=
        match below with
        | [] => (Idn * lower_boundary_r)%num
        | (Iup', _) :: _ => Iup'
        end in
      nabs (Iup_below - Iup + Idn_above - Idn) :: closure lower_boundary_r Idn below
  end.

(** *** Direct illumination, in the words of the specification *)

(** What one layer contributes: (Ru,Tu) from [rtDirect], (Rc,Tc) from
    [rtDiffuse] and its uncollided direct transmission U. *)
Record seed : Type := {
  Ru : num; Tu : num; Rc : num; Tc : num; U : num
}.

(** What the first loop stores on a layer. *)
Record stored : Type := {
  RuNew : num; TuNew : num; RcNew : num; TcNew : num
}.

Definition combine_dir (Ru_last Rc_last : num) (s : seed) : stored :=
  let Z := (Rc_last * Rc s)%num in
  {| RuNew := (Ru s + U s * Ru_last * Tc s * (Fin 1 + Z / (Fin 1 - Z))
               + (Tu s - U s) * Rc_last * Tc s * (Fin 1 + Z / (Fin 1 - Z)))%num;
     TuNew := (U s + U s * Ru_last * Rc s * (Fin 1 + Z / (Fin 1 - Z))
               + (Tu s - U s) * (Fin 1 + Z / (Fin 1 - Z)))%num;
     RcNew := (Rc s + Tc s * Rc_last * Tc s * (Fin 1 + Z / (Fin 1 - Z)))%num;
     TcNew := (Tc s * (Fin 1 + Z / (Fin 1 - Z)))%num |}.

Definition Ru_below (lower_boundary_r : num) (combined : list stored) : num :=
  match combined with
  | [] => lower_boundary_r
  | c :: _ => RuNew c
  end.

Definition Rc_below (lower_boundary_r : num) (combined : list stored) : num :=
  match combined with
  | [] => lower_boundary_r
  | c :: _ => RcNew c
  end.

Fixpoint adding_dir (lower_boundary_r : num) (seeds : list seed)
  : list stored :=
  match seeds with
  | [] => []
  | s :: below =>
      let combined := adding_dir lower_boundary_r below in
      combine_dir (Ru_below lower_boundary_r combined)
                  (Rc_below lower_boundary_r combined) s :: combined
  end.

(** The four normalised components of a layer and their sums. *)
Record direct : Type := {
  up_u : num; dn_u : num; up_c : num; dn_c : num; up : num; dn : num
}.

(** Top-down normalisation with the running uncollided transmission [Tu]
    (the product of the U above) and collided transmission [Tc]. *)
Fixpoint normalise_dir (Tu Tc : num) (us : list num) (st : list stored)
  : list direct :=
  match us, st with
  | u :: us, s :: below =>
      let up_u := (RuNew s * Tu)%num in
      let dn_u := (TuNew s * Tu)%num in
      let up_c := (RcNew s * Tc)%num in
      let dn_c := (TcNew s * Tc)%num in
      let Tu := (Tu * u)%num in
      {| up_u := up_u; dn_u := dn_u; up_c := up_c; dn_c := dn_c;
         up := (up_c + up_u)%num; dn := (dn_c + dn_u)%num |}
      :: normalise_dir Tu (dn_c + (dn_u - Tu))%num us below
  | _, _ => []
  end.

End Adding.

(** *** What a run leaves on a layer *)

Module Written.

Import canopyLayer Adding.

(** The contribution of a layer, as the first loop of the direct pass asks
    for it. *)
Definition seed_of (o : canopyLayer.t) : result seed :=
  '(Ru, Tu) ← rtDirect o;
  '(Rc, Tc) ← rtDiffuse o;
  Ok {| Ru := Ru; Tu := Tu; Rc := Rc; Tc := Tc; U := tUncollidedDirect o |}.

Definition diffuse_of (s : seed) : num * num := (Rc s, Tc s).

Definition write_stored_dif (f : num * num) (o : canopyLayer.t) : canopyLayer.t :=
  set_Idn_dif (Some f.2) (set_Iup_dif (Some f.1) o).

Definition write_dif (v : num * (num * num)) (o : canopyLayer.t) : canopyLayer.t :=
  set_Iab_dif (Some v.1) (write_stored_dif v.2 o).

Definition write_stored_dir (s : stored) (o : canopyLayer.t) : canopyLayer.t :=
  set_Idn_dir_c (Some (TcNew s))
    (set_Idn_dir_u (Some (TuNew s))
       (set_Iup_dir_c (Some (RcNew s))
          (set_Iup_dir_u (Some (RuNew s)) o))).

Definition write_direct (d : direct) (o : canopyLayer.t) : canopyLayer.t :=
  set_Idn_dir (Some (dn d))
    (set_Iup_dir (Some (up d))
       (set_Idn_dir_c (Some (dn_c d))
          (set_Iup_dir_c (Some (up_c d))
             (set_Idn_dir_u (Some (dn_u d))
                (set_Iup_dir_u (Some (up_u d)) o))))).

Definition write_dir (v : num * direct) (o : canopyLayer.t) : canopyLayer.t :=
  set_Iab_dir (Some v.1) (write_direct v.2 o).

(** The flux pairs of the diffuse pass and of the direct pass. *)
Definition fluxes_dif (lower_boundary_r : num) (rts : list (num * num))
  : list (num * num) :=
  normalise_dif (Fin 1) (adding_dif lower_boundary_r rts).

Definition fluxes_dir (lower_boundary_r : num) (seeds : list seed)
  : list direct :=
  normalise_dir (Fin 1) (Fin 0) (U <$> seeds) (adding_dir lower_boundary_r seeds).

Definition up_dn (d : direct) : num * num := (up d, dn d).

(** The values of a diffuse pass and of a direct pass, layer by layer. *)
Definition values_dif (lower_boundary_r : num) (rts : list (num * num))
  : list (num * (num * num)) :=
  let fl := fluxes_dif lower_boundary_r rts in
  zip (closure lower_boundary_r (Fin 1) fl) fl.

Definition values_dir (lower_boundary_r : num) (seeds : list seed)
  : list (num * direct) :=
  let ds := fluxes_dir lower_boundary_r seeds in
  zip (closure lower_boundary_r (Fin 1) (up_dn <$> ds)) ds.

(** The blend of a direct value [a] and a diffuse value [b]. *)
Definition mix (p a b : num) : num := ((Fin 1 - p) * a + p * b)%num.

Definition write_blend (p : num) (v : (num * (num * num)) * (num * direct))
    (o : canopyLayer.t) : canopyLayer.t :=
  let '((ab_dif, (up_dif, dn_dif)), (ab_dir, d)) := v in
  set_Iab (Some (mix p ab_dir ab_dif))
    (set_Idn (Some (mix p (dn d) dn_dif))
       (set_Iup (Some (mix p (up d) up_dif)) o)).

(** All that [getFluxes] assigns on a layer. *)
Definition write_passes (v : (num * (num * num)) * (num * direct))
    (o : canopyLayer.t) : canopyLayer.t :=
  write_dif v.1 (write_dir v.2 o).

Definition write_all (p : num) (v : (num * (num * num)) * (num * direct))
    (o : canopyLayer.t) : canopyLayer.t :=
  write_blend p v (write_passes v o).

Definition values_all (lower_boundary_r : num) (seeds : list seed)
  : list ((num * (num * num)) * (num * direct)) :=
  zip (values_dif lower_boundary_r (diffuse_of <$> seeds))
      (values_dir lower_boundary_r seeds).

End Written.

(** The layers of [ls] hold the fluxes (Iup, Idn) of [fl]. *)
Definition holds (get_up get_dn : canopyLayer.t -> option num)
    (ls : list canopyLayer.t) (fl : list (num * num)) : Prop :=
  Forall2 (fun o f => get_up o = Some f.1 /\ get_dn o = Some f.2) ls fl.

(** [Idn_above] is what comes down onto the layer below [pre]. *)
Definition holds_above (get_dn : canopyLayer.t -> option num)
    (pre : list canopyLayer.t) (Idn_above : num) : Prop :=
  match last pre with
  | None => Idn_above = Fin 1
  | Some o => get_dn o = Some Idn_above
  end.

(** ** The closed forms and the domains, in the words of the specification *)

Module Spec.

Import canopyLayer.

(** The scaling policies a layer may select. *)
Definition supported (method : string) : Prop :=
  method = "delta" \/ method = "quad".

(** g1=(1-(1-B)w)·scale, g2=(wB)·scale, g3=B0, g4=1-g3. *)
Definition gamma (B B0 w scale : num) : num * num * num * num :=
  (((Fin 1 - (Fin 1 - B) * w) * scale)%num, (w * B * scale)%num,
   B0, (Fin 1 - B0)%num).

(** k = sqrt(g1^2-g2^2), D = k+g1+(k-g1)·exp(-2k·tau),
    R = g2·(1-exp(-2k·tau))/D, T = 2k·exp(-k·tau)/D. *)
Definition diffuse (g1 g2 tau : num) : num * num :=
  let k := nsqrt (g1 * g1 - g2 * g2) in
  let D := (k + g1 + (k - g1) * nexp (- (Fin 2 * k * tau)))%num in
  ((g2 * (Fin 1 - nexp (- (Fin 2 * k * tau))) / D)%num,
   (Fin 2 * k * nexp (- (k * tau)) / D)%num).

(** tau = lai · G(mu) · Z(mu). *)
Definition tau (o : canopyLayer.t) : num :=
  (lai o * G o (mu o) * Z o (mu o))%num.





End Spec.

(** ** Stacks to run the program on *)

Module Examples.

(** Leaves of a spherical distribution: G = 1/2 and muBar = 1, with no
    structure (Z = 1) and upscatter fractions 1/2. *)
Definition spherical : leafGeometry.t :=
  {| leafGeometry.G := fun _ => Fin (1 / 2);
     leafGeometry.Z := fun _ => Fin 1;
     leafGeometry.B_direct := Fin (1 / 2);
     leafGeometry.B_diffuse := Fin (1 / 2);
     leafGeometry.muBar := Fin 1 |}.

(** A layer as [canopyLayer(mu)] builds it and as the caller then sets its
    leaf_r, leaf_t, lai and scaling methods; no flux is assigned yet. *)
Definition layer (mu leaf_r leaf_t lai : R) (diffuse direct : string)
  : canopyLayer.t :=
  {| canopyLayer.geometry := spherical;
     canopyLayer.mu := Fin mu;
     canopyLayer.leaf_r := Fin leaf_r;
     canopyLayer.leaf_t := Fin leaf_t;
     canopyLayer.lai := Fin lai;
     canopyLayer.gamma_scaling_diffuse := diffuse;
     canopyLayer.gamma_scaling_direct := direct;
     canopyLayer.Iup_dif := None; canopyLayer.Idn_dif := None;
     canopyLayer.Iab_dif := None;
     canopyLayer.Iup_dir_u := None; canopyLayer.Iup_dir_c := None;
     canopyLayer.Idn_dir_u := None; canopyLayer.Idn_dir_c := None;
     canopyLayer.Iup_dir := None; canopyLayer.Idn_dir := None;
     canopyLayer.Iab_dir := None;
     canopyLayer.Iup := None; canopyLayer.Idn := None;
     canopyLayer.Iab := None |}.

(** The layer of the constructor: leaf_r = leaf_t = 0.1, lai = 0.2, "delta". *)
Definition default (mu : R) : canopyLayer.t :=
  layer mu (1 / 10) (1 / 10) (1 / 5) "delta" "delta".

(** Black leaves: leaf_r = leaf_t = 0. *)
Definition black (mu lai : R) : canopyLayer.t :=
  layer mu 0 0 lai "delta" "delta".

(** Leaves that absorb nothing: leaf_r + leaf_t = 1. *)
Definition white (mu lai : R) (method : string) : canopyLayer.t :=
  layer mu (1 / 2) (1 / 2) lai method method.

(** A stack as [layeredCanopy(nLayers, mu)] builds it, with its
    lower_boundary_r and propDif set. *)
Definition stack (mu lower_boundary_r propDif : R) (ls : list canopyLayer.t)
  : layeredCanopy.t :=
  {| layeredCanopy.mu := Fin mu;
     layeredCanopy.lower_boundary_r := Fin lower_boundary_r;
     layeredCanopy.propDif := Fin propDif;
     layeredCanopy.layers := ls |}.

End Examples.

(** ** What the claims read on a stack *)

Module Read.

Import canopyLayer.

(** The value [v] has been assigned. *)
Definition assigned2 (f : num * num) : option num * option num :=
  (Some f.1, Some f.2).

Definition dif_fields (o : canopyLayer.t) : option num * option num :=
  (Iup_dif o, Idn_dif o).

Definition dir_fields (o : canopyLayer.t)
  : option num * option num * option num * option num :=
  (Iup_dir_u o, Idn_dir_u o, Iup_dir_c o, Idn_dir_c o).

Definition assigned_stored (s : Adding.stored)
  : option num * option num * option num * option num :=
  (Some (Adding.RuNew s), Some (Adding.TuNew s),
   Some (Adding.RcNew s), Some (Adding.TcNew s)).

Definition assigned_direct (d : Adding.direct)
  : option num * option num * option num * option num :=
  (Some (Adding.up_u d), Some (Adding.dn_u d),
   Some (Adding.up_c d), Some (Adding.dn_c d)).

Definition dir_totals (o : canopyLayer.t) : option num * option num :=
  (Iup_dir o, Idn_dir o).

(** The energy balance of layer [i] is closed on the attributes [get_up],
    [get_dn], [get_ab]: Iab = |Iup_below − Iup + Idn_above − Idn|, where
    Idn_above is 1 for the top layer and the Idn of the layer above
    otherwise, and Iup_below is Idn·lower_boundary_r for the bottom layer and
    the Iup of the layer below otherwise. *)
Definition closes (get_up get_dn get_ab : canopyLayer.t -> option num)
    (lower_boundary_r : num) (ls : list canopyLayer.t) (i : nat) : Prop :=
  exists o Iup Idn Idn_above Iup_below,
    ls !! i = Some o /\ get_up o = Some Iup /\ get_dn o = Some Idn
    /\ (i = 0%nat -> Idn_above = Fin 1)
    /\ (i <> 0%nat ->
        exists above, ls !! (i - 1)%nat = Some above
                      /\ get_dn above = Some Idn_above)
    /\ (i = (length ls - 1)%nat -> Iup_below = (Idn * lower_boundary_r)%num)
    /\ (i <> (length ls - 1)%nat ->
        exists below, ls !! (i + 1)%nat = Some below
                      /\ get_up below = Some Iup_below)
    /\ get_ab o = Some (nabs (Iup_below - Iup + Idn_above - Idn)).

End Read.

(** ** The closed forms of a layer on real numbers

    What [rtDiffuse] and [rtDirect] compute when the coefficients, tau and mu
    are finite, written with the operations of the program in its order. *)

Module Closed.

Local Open Scope R_scope.

Definition k (g1 g2 : R) : R := sqrt (g1 * g1 - g2 * g2).

Definition D_dif (g1 g2 tau : R) : R :=
  k g1 g2 + g1 + (k g1 g2 - g1) * exp (- 2 * k g1 g2 * tau).

Definition R_dif (g1 g2 tau : R) : R :=
  g2 * (1 - exp (- 2 * k g1 g2 * tau)) / D_dif g1 g2 tau.

Definition T_dif (g1 g2 tau : R) : R :=
  2 * k g1 g2 * exp (- k g1 g2 * tau) / D_dif g1 g2 tau.

Definition D_dir (g1 g2 tau mu : R) : R :=
  let k := k g1 g2 in
  (1 - k * k * mu * mu)
  * ((k + g1) * exp (k * tau) + (k - g1) * exp (- k * tau)).

Definition R_dir (w g1 g2 g3 g4 tau mu : R) : R :=
  let a2 := g1 * g3 + g2 * g4 in
  let k := k g1 g2 in
  let F := (1 - k * mu) * (a2 + k * g3) * exp (k * tau) in
  let G := (1 + k * mu) * (a2 - k * g3) * exp (- k * tau) in
  let H := 2 * k * (g3 - a2 * mu) * exp (- tau / mu) in
  w / D_dir g1 g2 tau mu * (F - G - H).

Definition T_dir (w g1 g2 g3 g4 tau mu : R) : R :=
  let a1 := g1 * g4 + g2 * g3 in
  let k := k g1 g2 in
  let F := (1 + k * mu) * (a1 + k * g4) * exp (k * tau) in
  let G := (1 - k * mu) * (a1 - k * g4) * exp (- k * tau) in
  let H := 2 * k * (g4 + a1 * mu) * exp (tau / mu) in
  exp (- tau / mu) * (1 - w / D_dir g1 g2 tau mu * (F - G - H)).

End Closed.

(** ** Chords of the exponential

    The slope of the chord of exp from [a] to [b]; at [a = b], of the
    tangent.  The direct closed form is a combination of such slopes. *)


(** ** What the example layers contribute *)

Module Seeds.

Local Open Scope R_scope.

(** The coefficients of [Examples.layer] under "delta": the scale is
    1/(G·muBar) = 2 and B = B0 = 1/2, so that g1 = 2 - w and g2 = w. *)
Definition g1 (leaf_r leaf_t : R) : R := 2 - (leaf_r + leaf_t).
Definition g2 (leaf_r leaf_t : R) : R := leaf_r + leaf_t.
Definition tau (lai : R) : R := lai * (1 / 2) * 1.

Definition rt_dif (leaf_r leaf_t lai : R) : num * num :=
  (Fin (Closed.R_dif (g1 leaf_r leaf_t) (g2 leaf_r leaf_t) (tau lai)),
   Fin (Closed.T_dif (g1 leaf_r leaf_t) (g2 leaf_r leaf_t) (tau lai))).

Definition rt_dir (mu leaf_r leaf_t lai : R) : num * num :=
  (Fin (Closed.R_dir (leaf_r + leaf_t) (g1 leaf_r leaf_t) (g2 leaf_r leaf_t)
          (1 / 2) (1 / 2) (tau lai) mu),
   Fin (Closed.T_dir (leaf_r + leaf_t) (g1 leaf_r leaf_t) (g2 leaf_r leaf_t)
          (1 / 2) (1 / 2) (tau lai) mu)).

Definition uncollided (mu lai : R) : num :=
  Fin (exp (- (1 / 2) * 1 * lai / mu)).

Definition seed (mu leaf_r leaf_t lai : R) : Adding.seed :=
  {| Adding.Ru := (rt_dir mu leaf_r leaf_t lai).1;
     Adding.Tu := (rt_dir mu leaf_r leaf_t lai).2;
     Adding.Rc := (rt_dif leaf_r leaf_t lai).1;
     Adding.Tc := (rt_dif leaf_r leaf_t lai).2;
     Adding.U := uncollided mu lai |}.

(** Three layers of the constructor under a sun at the zenith, over a soil of
    reflectance 0.1, as in the program's own test but for their number. *)
Definition three (propDif : R) : layeredCanopy.t :=
  Examples.stack 1 (1 / 10) propDif
    [Examples.default 1; Examples.default 1; Examples.default 1].

Definition three_seeds : list Adding.seed :=
  [seed 1 (1 / 10) (1 / 10) (1 / 5); seed 1 (1 / 10) (1 / 10) (1 / 5);
   seed 1 (1 / 10) (1 / 10) (1 / 5)].

(** The stack that [getFluxes] leaves when every layer contributes. *)
Definition after_getFluxes (c : layeredCanopy.t) (seeds : list Adding.seed)
  : layeredCanopy.t :=
  layeredCanopy.set_layers
    (zip_with (Written.write_all (layeredCanopy.propDif c))
       (Written.values_all (layeredCanopy.lower_boundary_r c) seeds)
       (layeredCanopy.layers c)) c.

Definition after_dif (c : layeredCanopy.t) (rts : list (num * num))
  : layeredCanopy.t :=
  layeredCanopy.set_layers
    (zip_with Written.write_dif
       (Written.values_dif (layeredCanopy.lower_boundary_r c) rts)
       (layeredCanopy.layers c)) c.

Definition after_dir (c : layeredCanopy.t) (seeds : list Adding.seed)
  : layeredCanopy.t :=
  layeredCanopy.set_layers
    (zip_with Written.write_dir
       (Written.values_dir (layeredCanopy.lower_boundary_r c) seeds)
       (layeredCanopy.layers c)) c.

End Seeds.

(** The (R,T) of [rtDiffuse] on the three layers of [Seeds.three]. *)
Definition three_rts : list (num * num) :=
  [Seeds.rt_dif (1 / 10) (1 / 10) (1 / 5); Seeds.rt_dif (1 / 10) (1 / 10) (1 / 5);
   Seeds.rt_dif (1 / 10) (1 / 10) (1 / 5)].

(** ** What the claims read on a blended layer *)

Module Blend.

Import canopyLayer.

(** The direct and diffuse values of the three fluxes of a layer. *)
Record fluxes : Type := {
  up_dir : num; up_dif : num;
  dn_dir : num; dn_dif : num;
  ab_dir : num; ab_dif : num
}.








End Blend.

(** ** A layer at the singular point of the direct closed form

    Leaves with leaf_r = leaf_t = 3/8 under a sun at the zenith: g1 = 5/4 and
    g2 = 3/4, so that k = 1 and k·mu = 1. *)

Module Resonant.

Definition layer : canopyLayer.t :=
  Examples.layer 1 (3 / 8) (3 / 8) (1 / 5) "delta" "delta".

Definition seed : Adding.seed :=
  {| Adding.Ru := NaN;
     Adding.Tu := NaN;
     Adding.Rc := (Seeds.rt_dif (3 / 8) (3 / 8) (1 / 5)).1;
     Adding.Tc := (Seeds.rt_dif (3 / 8) (3 / 8) (1 / 5)).2;
     Adding.U := Seeds.uncollided 1 (1 / 5) |}.

(** A stack of that one layer over a soil of reflectance 0.1. *)
Definition stack (propDif : R) : layeredCanopy.t :=
  Examples.stack 1 (1 / 10) propDif [layer].


End Resonant.

(** ** Inputs and outputs of a run *)

Module Run.

Import canopyLayer.

(** What the caller sets on a layer: the inputs of a run. *)
Definition parameters (o : canopyLayer.t)
  : leafGeometry.t * num * num * num * num * string * string :=
  (geometry o, mu o, leaf_r o, leaf_t o, lai o,
   gamma_scaling_diffuse o, gamma_scaling_direct o).

(** The attributes that the two passes assign. *)
Definition pass_fields (o : canopyLayer.t) : list (option num) :=
  [Iup_dif o; Idn_dif o; Iab_dif o;
   Iup_dir_u o; Iup_dir_c o; Idn_dir_u o; Idn_dir_c o;
   Iup_dir o; Idn_dir o; Iab_dir o].


(** All the attributes that [getFluxes] assigns. *)
Definition flux_fields (o : canopyLayer.t) : list (option num) :=
  pass_fields o ++ [Iup o; Idn o; Iab o].

(** The two stacks are set to the same inputs: mu, lower_boundary_r,
    propDif and, layer by layer, the same parameters. *)
Definition same_inputs (c1 c2 : layeredCanopy.t) : Prop :=
  layeredCanopy.mu c1 = layeredCanopy.mu c2
  /\ layeredCanopy.lower_boundary_r c1 = layeredCanopy.lower_boundary_r c2
  /\ layeredCanopy.propDif c1 = layeredCanopy.propDif c2
  /\ parameters <$> layeredCanopy.layers c1
     = parameters <$> layeredCanopy.layers c2.

(** The fluxes that the layers of a stack hold. *)
Definition fluxes (c : layeredCanopy.t) : list (list (option num)) :=
  flux_fields <$> layeredCanopy.layers c.

End Run.

(** ** The attributes of the passes as a run assigns them *)

Module Assigned.

Import Adding.



(** A stack of one default layer whose direct scaling is unknown, for a
    run under diffuse light only. *)
Definition misconfigured : layeredCanopy.t :=
  Examples.stack 1 (1 / 10) 1
    [Examples.layer 1 (1 / 10) (1 / 10) (1 / 5) "delta" "eddington"].

End Assigned.

(** Leaves that absorb nothing (leaf_r + leaf_t = 1), one layer of them. *)
Definition white : canopyLayer.t := Examples.white 1 (1 / 5) "delta".

(** * Properties *)

(** ** The loops *)

Lemma bind_Ok {A B} (a : A) (f : A -> result B) : (Ok a ≫= f) = f a.
Proof. reflexivity. Qed.

Lemma bind_Raise {A B} (e : exn) (f : A -> result B) : (Raise e ≫= f) = Raise e.
Proof. reflexivity. Qed.

Lemma for_each_app {S} (body : nat -> S -> result S) (i1 i2 : list nat) (s : S) :
  for_each body (i1 ++ i2) s = (s' ← for_each body i1 s; for_each body i2 s').
Proof.
  revert s. induction i1 as [|i i1 IH]; intros s; simpl; [reflexivity|].
  destruct (body i s) as [s'|e]; simpl; [apply IH | reflexivity].
Qed.

Lemma getitem_middle {A} (pre suf : list A) (o : A) :
  getitem (pre ++ o :: suf) (length pre) = Ok o.
Proof. unfold getitem. by rewrite list_lookup_middle. Qed.

Lemma insert_middle {A} (pre suf : list A) (o o' : A) :
  <[length pre := o']> (pre ++ o :: suf) = pre ++ o' :: suf.
Proof.
  rewrite insert_app_r_alt by lia. by rewrite Nat.sub_diag.
Qed.

Lemma scan_up_snoc {X A} (body : X -> A -> result (X * A)) (x : X)
    (ls : list A) (o : A) :
  scan_up body x (ls ++ [o]) =
  ('(x, o) ← body x o; '(x, ls) ← scan_up body x ls; Ok (x, ls ++ [o])).
Proof.
  revert x. induction ls as [|o1 ls IH]; intros x; simpl.
  - destruct (body x o) as [[x' o']|e]; reflexivity.
  - rewrite IH. destruct (body x o) as [[x' o']|e]; simpl; [|reflexivity].
    destruct (scan_up body x' ls) as [[x2 ls']|e]; simpl; [|reflexivity].
    destruct (body x2 o1) as [[x3 o1']|e]; reflexivity.
Qed.

Section AtLayer.

Import layeredCanopy.

Context {X : Type} (body : X -> canopyLayer.t -> result (X * canopyLayer.t)).

(** The loop from the top down, started below the layers [pre]. *)
Lemma for_each_down_from (suf pre : list canopyLayer.t) (x : X) :
  for_each (at_layer body) (seq (length pre) (length suf)) (x, pre ++ suf) =
  ('(x, suf) ← scan_down body x suf; Ok (x, pre ++ suf)).
Proof.
  revert pre x. induction suf as [|o suf IH]; intros pre x; simpl.
  - reflexivity.
  - rewrite getitem_middle. simpl.
    destruct (body x o) as [[x' o']|e]; simpl; [|reflexivity].
    rewrite insert_middle.
    replace (pre ++ o' :: suf) with ((pre ++ [o']) ++ suf)
      by (by rewrite <- app_assoc).
    replace (S (length pre)) with (length (pre ++ [o']))
      by (rewrite length_app; simpl; lia).
    rewrite IH.
    destruct (scan_down body x' suf) as [[x2 suf']|e]; simpl; [|reflexivity].
    by rewrite <- app_assoc.
Qed.

Lemma for_each_xrange (ls : list canopyLayer.t) (x : X) :
  for_each (at_layer body) (xrange (length ls)) (x, ls) = scan_down body x ls.
Proof.
  unfold xrange. pose proof (for_each_down_from ls [] x) as H.
  simpl in H. rewrite H.
  destruct (scan_down body x ls) as [[x' ls']|e]; reflexivity.
Qed.

(** The loop from the bottom up, over the layers [mid] of a stack. *)
Lemma for_each_up_from (mid pre post : list canopyLayer.t) (x : X) :
  for_each (at_layer body) (rev (seq (length pre) (length mid)))
    (x, pre ++ mid ++ post) =
  ('(x, mid) ← scan_up body x mid; Ok (x, pre ++ mid ++ post)).
Proof.
  revert post x. induction mid as [|o mid IH] using rev_ind; intros post x.
  - reflexivity.
  - rewrite length_app, seq_app, rev_app_distr. simpl.
    rewrite scan_up_snoc.
    replace (pre ++ (mid ++ [o]) ++ post) with ((pre ++ mid) ++ o :: post)
      by (by rewrite <- !app_assoc).
    replace (length pre + length mid)%nat with (length (pre ++ mid))
      by (by rewrite length_app).
    rewrite getitem_middle. simpl.
    destruct (body x o) as [[x' o']|e]; simpl; [|reflexivity].
    rewrite insert_middle.
    replace ((pre ++ mid) ++ o' :: post) with (pre ++ mid ++ o' :: post)
      by (by rewrite <- app_assoc).
    rewrite IH.
    destruct (scan_up body x' mid) as [[x2 mid']|e]; simpl; [|reflexivity].
    by rewrite <- !app_assoc.
Qed.

Lemma for_each_xrange_down (ls : list canopyLayer.t) (x : X) :
  for_each (at_layer body) (xrange_down (length ls)) (x, ls) = scan_up body x ls.
Proof.
  unfold xrange_down.
  pose proof (for_each_up_from ls [] [] x) as H. simpl in H.
  rewrite app_nil_r in H. rewrite H.
  destruct (scan_up body x ls) as [[x' ls']|e]; simpl; [|reflexivity].
  by rewrite app_nil_r.
Qed.

End AtLayer.

(** ** The closure of the energy balance *)

Section Absorption.

Import layeredCanopy Adding.

Context (up dn : string) (get_up get_dn : canopyLayer.t -> option num)
  (set_ab : option num -> canopyLayer.t -> canopyLayer.t).
Hypothesis get_dn_set_ab : forall v o, get_dn (set_ab v o) = get_dn o.

Lemma absorption_from (lbr : num) (n : nat) (suf : list canopyLayer.t) :
  forall (fl : list (num * num)) (pre : list canopyLayer.t) (Idn_above : num),
  n = (length pre + length suf)%nat ->
  holds get_up get_dn suf fl ->
  holds_above get_dn pre Idn_above ->
  for_each (absorption up dn get_up get_dn set_ab n lbr)
    (seq (length pre) (length suf)) (pre ++ suf) =
  Ok (pre ++ zip_with (fun a o => set_ab (Some a) o)
                (closure lbr Idn_above fl) suf).
Proof.
  induction suf as [|o suf IH]; intros fl pre Idn_above Hn Hfl Habove.
  - by rewrite (Forall2_nil_inv_l _ _ Hfl).
  - apply Forall2_cons_inv_l in Hfl as ([Iup Idn] & fl' & [Hup Hdn] & Hfl' & ->).
    simpl in Hup, Hdn. cbn [length seq for_each].
    assert (Hstep :
      absorption up dn get_up get_dn set_ab n lbr (length pre) (pre ++ o :: suf) =
      Ok ((pre ++ [set_ab (Some (hd (Fin 0) (closure lbr Idn_above
                                               ((Iup, Idn) :: fl')))) o])
          ++ suf)).
    { unfold absorption.
      assert (Ha : (if Nat.eqb (length pre) 0 then Ok (Fin 1)
                    else o0 ← getitem (pre ++ o :: suf) (length pre - 1);
                         getattr dn (get_dn o0)) = Ok Idn_above).
      { unfold holds_above in Habove.
        destruct pre as [|p pre _] using rev_ind; simpl in *.
        - by rewrite Habove.
        - rewrite last_snoc in Habove. rewrite length_app. simpl.
          replace (length pre + 1)%nat with (S (length pre)) by lia. simpl.
          rewrite Nat.sub_0_r. rewrite <- app_assoc. simpl.
          rewrite getitem_middle. simpl. by rewrite Habove. }
      rewrite Ha. simpl.
      assert (Hb : (if Nat.eqb (length pre) (n - 1) then
                      o0 ← getitem (pre ++ o :: suf) (length pre);
                      v ← getattr dn (get_dn o0); Ok (v * lbr)%num
                    else o0 ← getitem (pre ++ o :: suf) (length pre + 1);
                         getattr up (get_up o0)) =
                   Ok (match fl' with
                       | [] => (Idn * lbr)%num
                       | (Iup', _) :: _ => Iup'
                       end)).
      { destruct suf as [|o2 suf].
        - rewrite (Forall2_nil_inv_l _ _ Hfl'). simpl in Hn.
          replace (n - 1)%nat with (length pre) by lia.
          rewrite Nat.eqb_refl, getitem_middle. simpl. by rewrite Hdn.
        - apply Forall2_cons_inv_l in Hfl' as ([Iup2 Idn2] & fl2 & [Hup2 _] & _ & ->).
          simpl in Hn, Hup2.
          replace (Nat.eqb (length pre) (n - 1)) with false
            by (symmetry; apply Nat.eqb_neq; lia).
          replace (pre ++ o :: o2 :: suf) with ((pre ++ [o]) ++ o2 :: suf)
            by (by rewrite <- app_assoc).
          replace (length pre + 1)%nat with (length (pre ++ [o]))
            by (by rewrite length_app).
          rewrite getitem_middle. simpl. by rewrite Hup2. }
      rewrite Hb. simpl. rewrite getitem_middle. simpl.
      rewrite Hdn, Hup. simpl. rewrite insert_middle.
      by rewrite <- app_assoc. }
    rewrite Hstep. simpl.
    replace (S (length pre)) with
      (length (pre ++ [set_ab (Some (nabs
         (match fl' with
          | [] => (Idn * lbr)%num
          | (Iup', _) :: _ => Iup'
          end - Iup + Idn_above - Idn))) o]))
      by (rewrite length_app; simpl; lia).
    rewrite (IH fl' _ Idn).
    + by rewrite <- app_assoc.
    + rewrite length_app. simpl in *. lia.
    + exact Hfl'.
    + unfold holds_above. rewrite last_snoc. by rewrite get_dn_set_ab.
Qed.

Lemma absorption_loop (lbr : num) (ls : list canopyLayer.t) (fl : list (num * num)) :
  holds get_up get_dn ls fl ->
  for_each (absorption up dn get_up get_dn set_ab (length ls) lbr)
    (xrange (length ls)) ls =
  Ok (zip_with (fun a o => set_ab (Some a) o) (closure lbr (Fin 1) fl) ls).
Proof.
  intros Hfl. unfold xrange.
  by apply (absorption_from lbr (length ls) ls fl [] (Fin 1)).
Qed.

End Absorption.

(** ** What the two passes compute *)

Section Passes.

Import canopyLayer layeredCanopy Adding Written.

Lemma zip_with_zip_with {A B} (f : A -> canopyLayer.t -> canopyLayer.t)
    (g : B -> canopyLayer.t -> canopyLayer.t) (xs : list A) (ys : list B)
    (ls : list canopyLayer.t) :
  zip_with f xs (zip_with g ys ls) =
  zip_with (fun v o => f v.1 (g v.2 o)) (zip xs ys) ls.
Proof.
  revert ys ls. induction xs as [|x xs IH]; intros [|y ys] [|o ls]; simpl;
    try reflexivity.
  by rewrite IH.
Qed.

Lemma length_adding_dif (lbr : num) (rts : list (num * num)) :
  length (adding_dif lbr rts) = length rts.
Proof. induction rts as [|rt rts IH]; simpl; [reflexivity | by rewrite IH]. Qed.

Lemma length_normalise_dif (fl : list (num * num)) (T : num) :
  length (normalise_dif T fl) = length fl.
Proof.
  revert T. induction fl as [|[Iup Idn] fl IH]; intros T; simpl;
    [reflexivity | by rewrite IH].
Qed.

Lemma length_closure (lbr : num) (fl : list (num * num)) (Idn_above : num) :
  length (closure lbr Idn_above fl) = length fl.
Proof.
  revert Idn_above. induction fl as [|[Iup Idn] fl IH]; intros a; simpl;
    [reflexivity | by rewrite IH].
Qed.

Lemma length_fluxes_dif (lbr : num) (rts : list (num * num)) :
  length (fluxes_dif lbr rts) = length rts.
Proof. unfold fluxes_dif. by rewrite length_normalise_dif, length_adding_dif. Qed.

Lemma length_adding_dir (lbr : num) (sds : list seed) :
  length (adding_dir lbr sds) = length sds.
Proof. induction sds as [|s sds IH]; simpl; [reflexivity | by rewrite IH]. Qed.

Lemma length_normalise_dir (st : list stored) (us : list num) (Tu Tc : num) :
  length us = length st -> length (normalise_dir Tu Tc us st) = length st.
Proof.
  revert us Tu Tc. induction st as [|s st IH]; intros [|u us] Tu Tc H;
    simpl in *; try reflexivity; try discriminate.
  rewrite IH; [reflexivity | lia].
Qed.

Lemma length_fluxes_dir (lbr : num) (sds : list seed) :
  length (fluxes_dir lbr sds) = length sds.
Proof.
  unfold fluxes_dir. rewrite length_normalise_dir; rewrite length_adding_dir;
    [reflexivity | apply length_fmap].
Qed.

(** *** The diffuse pass *)

Lemma scan_up_dif_adding (lbr : num) (ls : list canopyLayer.t)
    (rts : list (num * num)) :
  Forall2 (fun o rt => rtDiffuse o = Ok rt) ls rts ->
  scan_up dif_adding lbr ls =
  Ok (R_below lbr (adding_dif lbr rts),
      zip_with write_stored_dif (adding_dif lbr rts) ls).
Proof.
  induction 1 as [|o [R T] ls rts Hrt _ IH]; simpl; [reflexivity|].
  rewrite IH. simpl. unfold dif_adding. rewrite Hrt. reflexivity.
Qed.

Lemma dif_normalise_stored (T Iup Idn : num) (o : canopyLayer.t) :
  dif_normalise T (write_stored_dif (Iup, Idn) o) =
  Ok ((T * Idn)%num, write_stored_dif ((Iup * T)%num, (Idn * T)%num) o).
Proof. destruct o; reflexivity. Qed.

Lemma scan_down_dif_normalise (fl : list (num * num)) (ls : list canopyLayer.t)
    (T : num) :
  exists T',
    scan_down dif_normalise T (zip_with write_stored_dif fl ls) =
    Ok (T', zip_with write_stored_dif (normalise_dif T fl) ls).
Proof.
  revert ls T. induction fl as [|[Iup Idn] fl IH]; intros [|o ls] T;
    try (eexists; reflexivity).
  destruct (IH ls (T * Idn)%num) as [T' HT']. exists T'.
  cbn [zip_with normalise_dif scan_down].
  rewrite dif_normalise_stored, bind_Ok. cbv beta iota.
  rewrite HT'. reflexivity.
Qed.

Lemma holds_write_stored_dif (fl : list (num * num)) (ls : list canopyLayer.t) :
  length fl = length ls ->
  holds Iup_dif Idn_dif (zip_with write_stored_dif fl ls) fl.
Proof.
  revert ls. induction fl as [|f fl IH]; intros [|o ls] H; simpl in *;
    try discriminate; constructor.
  - split; reflexivity.
  - apply IH. lia.
Qed.

Lemma getFluxesCanopyDif_ok (c : layeredCanopy.t) (rts : list (num * num)) :
  Forall2 (fun o rt => rtDiffuse o = Ok rt) (layers c) rts ->
  getFluxesCanopyDif c =
  Ok (set_layers
        (zip_with write_dif (values_dif (lower_boundary_r c) rts) (layers c)) c).
Proof.
  intros Hrts. pose proof (Forall2_length _ _ _ Hrts) as Hlen.
  unfold getFluxesCanopyDif, nLayers.
  rewrite for_each_xrange_down, (scan_up_dif_adding _ _ _ Hrts). cbn.
  set (st := adding_dif (lower_boundary_r c) rts).
  assert (Hst : length (zip_with write_stored_dif st (layers c))
                = length (layers c)).
  { rewrite length_zip_with. unfold st. rewrite length_adding_dif. lia. }
  rewrite <- Hst at 1. rewrite for_each_xrange.
  destruct (scan_down_dif_normalise st (layers c) (Fin 1)) as [T' ->]. cbn.
  fold (fluxes_dif (lower_boundary_r c) rts).
  set (fl := fluxes_dif (lower_boundary_r c) rts).
  assert (Hfl : length fl = length (layers c)).
  { unfold fl. rewrite length_fluxes_dif. lia. }
  assert (Hls : length (zip_with write_stored_dif fl (layers c))
                = length (layers c)).
  { rewrite length_zip_with. lia. }
  rewrite <- Hls. unfold dif_absorption.
  rewrite (absorption_loop "Iup_dif" "Idn_dif" Iup_dif Idn_dif set_Iab_dif
             (fun _ _ => eq_refl) _ _ fl)
    by (by apply holds_write_stored_dif).
  cbn. do 2 f_equal. rewrite zip_with_zip_with. reflexivity.
Qed.

(** *** The direct pass *)

Lemma seed_of_Ok (o : canopyLayer.t) (s : seed) :
  seed_of o = Ok s <->
  rtDirect o = Ok (Ru s, Tu s) /\ rtDiffuse o = Ok (Rc s, Tc s)
  /\ tUncollidedDirect o = U s.
Proof.
  unfold seed_of. split.
  - destruct (rtDirect o) as [[ru tu]|e]; simpl; [|discriminate].
    destruct (rtDiffuse o) as [[rc tc]|e]; simpl; [|discriminate].
    intros [= <-]. by simpl.
  - intros (-> & -> & HU). simpl. rewrite HU. by destruct s.
Qed.

Lemma dir_adding_seed (Ru_last Rc_last : num) (o : canopyLayer.t) (s : seed) :
  seed_of o = Ok s ->
  dir_adding (Ru_last, Rc_last) o =
  Ok (RuNew (combine_dir Ru_last Rc_last s),
      RcNew (combine_dir Ru_last Rc_last s),
      write_stored_dir (combine_dir Ru_last Rc_last s) o).
Proof.
  intros (Hdir & Hdif & HU)%seed_of_Ok. unfold dir_adding.
  rewrite Hdir, Hdif, HU. reflexivity.
Qed.

Lemma scan_up_dir_adding (lbr : num) (ls : list canopyLayer.t)
    (sds : list seed) :
  Forall2 (fun o s => seed_of o = Ok s) ls sds ->
  scan_up dir_adding (lbr, lbr) ls =
  Ok (Ru_below lbr (adding_dir lbr sds), Rc_below lbr (adding_dir lbr sds),
      zip_with write_stored_dir (adding_dir lbr sds) ls).
Proof.
  induction 1 as [|o s ls sds Hs _ IH]; [reflexivity|].
  cbn [scan_up adding_dir zip_with]. rewrite IH, bind_Ok. cbv beta iota.
  rewrite (dir_adding_seed _ _ _ _ Hs). reflexivity.
Qed.

Lemma dir_normalise_stored (Tu Tc : num) (s : stored) (o : canopyLayer.t) :
  dir_normalise (Tu, Tc) (write_stored_dir s o) =
  Ok ((Tu * tUncollidedDirect o)%num,
      (TcNew s * Tc + (TuNew s * Tu - Tu * tUncollidedDirect o))%num,
      write_direct
        {| up_u := (RuNew s * Tu)%num; dn_u := (TuNew s * Tu)%num;
           up_c := (RcNew s * Tc)%num; dn_c := (TcNew s * Tc)%num;
           up := (RcNew s * Tc + RuNew s * Tu)%num;
           dn := (TcNew s * Tc + TuNew s * Tu)%num |} o).
Proof. destruct o; reflexivity. Qed.

Lemma scan_down_dir_normalise (st : list stored) (ls : list canopyLayer.t)
    (Tu Tc : num) :
  exists x',
    scan_down dir_normalise (Tu, Tc) (zip_with write_stored_dir st ls) =
    Ok (x', zip_with write_direct
              (normalise_dir Tu Tc (tUncollidedDirect <$> ls) st) ls).
Proof.
  revert ls Tu Tc. induction st as [|s st IH]; intros [|o ls] Tu Tc;
    try (eexists; reflexivity).
  cbn [zip_with fmap list_fmap normalise_dir scan_down].
  rewrite dir_normalise_stored, bind_Ok. cbv beta iota.
  edestruct IH as [x' ->]. exists x'. reflexivity.
Qed.

Lemma holds_write_direct (ds : list direct) (ls : list canopyLayer.t) :
  length ds = length ls ->
  holds Iup_dir Idn_dir (zip_with write_direct ds ls) (up_dn <$> ds).
Proof.
  revert ls. induction ds as [|d ds IH]; intros [|o ls] H; simpl in *;
    try discriminate; constructor.
  - split; reflexivity.
  - apply IH. lia.
Qed.

Lemma seeds_U (ls : list canopyLayer.t) (sds : list seed) :
  Forall2 (fun o s => seed_of o = Ok s) ls sds ->
  tUncollidedDirect <$> ls = U <$> sds.
Proof.
  induction 1 as [|o s ls sds Hs _ IH]; [reflexivity|].
  apply seed_of_Ok in Hs as (_ & _ & HU). rewrite !fmap_cons. by rewrite HU, IH.
Qed.

Lemma getFluxesCanopyDir_ok (c : layeredCanopy.t) (sds : list seed) :
  Forall2 (fun o s => seed_of o = Ok s) (layers c) sds ->
  getFluxesCanopyDir c =
  Ok (set_layers
        (zip_with write_dir (values_dir (lower_boundary_r c) sds) (layers c)) c).
Proof.
  intros Hsds. pose proof (Forall2_length _ _ _ Hsds) as Hlen.
  unfold getFluxesCanopyDir, nLayers.
  rewrite for_each_xrange_down, (scan_up_dir_adding _ _ _ Hsds), bind_Ok.
  cbv beta iota.
  set (st := adding_dir (lower_boundary_r c) sds).
  assert (Hst : length (zip_with write_stored_dir st (layers c))
                = length (layers c)).
  { rewrite length_zip_with. unfold st. rewrite length_adding_dir. lia. }
  rewrite <- Hst at 1. rewrite for_each_xrange.
  destruct (scan_down_dir_normalise st (layers c) (Fin 1) (Fin 0)) as [x' ->].
  rewrite bind_Ok. destruct x' as [Tu' Tc']. cbv beta iota.
  rewrite (seeds_U _ _ Hsds). fold (fluxes_dir (lower_boundary_r c) sds).
  set (ds := fluxes_dir (lower_boundary_r c) sds).
  assert (Hds : length ds = length (layers c)).
  { unfold ds. rewrite length_fluxes_dir. lia. }
  assert (Hls : length (zip_with write_direct ds (layers c))
                = length (layers c)).
  { rewrite length_zip_with. lia. }
  rewrite <- Hls. unfold dir_absorption.
  rewrite (absorption_loop "Iup_dir" "Idn_dir" Iup_dir Idn_dir set_Iab_dir
             (fun _ _ => eq_refl) _ _ (up_dn <$> ds))
    by (by apply holds_write_direct).
  rewrite bind_Ok. do 2 f_equal. rewrite zip_with_zip_with. reflexivity.
Qed.

(** *** The blend *)

Lemma blend_passes (p : num) (v : (num * (num * num)) * (num * direct))
    (o : canopyLayer.t) :
  blend p tt (write_passes v o) = Ok (tt, write_all p v o).
Proof.
  destruct v as [[ab_dif [up_dif dn_dif]] [ab_dir d]]. destruct o.
  vm_compute. reflexivity.
Qed.

Lemma scan_down_blend (p : num)
    (vs : list ((num * (num * num)) * (num * direct)))
    (ls : list canopyLayer.t) :
  scan_down (blend p) tt (zip_with write_passes vs ls) =
  Ok (tt, zip_with (write_all p) vs ls).
Proof.
  revert ls. induction vs as [|v vs IH]; intros [|o ls]; try reflexivity.
  cbn [zip_with scan_down]. rewrite blend_passes, bind_Ok. cbv beta iota.
  rewrite IH. reflexivity.
Qed.

Lemma length_values_dif (lbr : num) (rts : list (num * num)) :
  length (values_dif lbr rts) = length rts.
Proof.
  unfold values_dif. rewrite length_zip, length_closure, length_fluxes_dif. lia.
Qed.

Lemma length_values_dir (lbr : num) (sds : list seed) :
  length (values_dir lbr sds) = length sds.
Proof.
  unfold values_dir.
  rewrite length_zip, length_closure, length_fmap, length_fluxes_dir. lia.
Qed.

Lemma length_values_all (lbr : num) (sds : list seed) :
  length (values_all lbr sds) = length sds.
Proof.
  unfold values_all.
  rewrite length_zip, length_values_dif, length_values_dir, length_fmap. lia.
Qed.

Lemma seeds_diffuse {V} (f : V -> canopyLayer.t -> canopyLayer.t)
    (vs : list V) (ls : list canopyLayer.t) (sds : list seed) :
  (forall v o, rtDiffuse (f v o) = rtDiffuse o) ->
  length vs = length ls ->
  Forall2 (fun o s => seed_of o = Ok s) ls sds ->
  Forall2 (fun o rt => rtDiffuse o = Ok rt) (zip_with f vs ls)
    (diffuse_of <$> sds).
Proof.
  intros Hf Hlen Hsds. revert vs Hlen.
  induction Hsds as [|o s ls sds Hs _ IH]; intros [|v vs] Hlen;
    simpl in *; try discriminate; constructor.
  - rewrite Hf. by apply seed_of_Ok in Hs as (_ & ? & _).
  - apply IH. lia.
Qed.

Theorem getFluxes_ok (c : layeredCanopy.t) (sds : list seed) :
  Forall2 (fun o s => seed_of o = Ok s) (layers c) sds ->
  getFluxes c =
  Ok (set_layers
        (zip_with (write_all (propDif c))
           (values_all (lower_boundary_r c) sds) (layers c)) c).
Proof.
  intros Hsds. pose proof (Forall2_length _ _ _ Hsds) as Hlen.
  unfold getFluxes. rewrite (getFluxesCanopyDir_ok _ _ Hsds), bind_Ok.
  rewrite (getFluxesCanopyDif_ok _ (diffuse_of <$> sds)); cbn [layers set_layers].
  2:{ apply seeds_diffuse; [reflexivity | | exact Hsds].
      rewrite length_values_dir. lia. }
  rewrite bind_Ok. unfold nLayers. cbn [layers set_layers lower_boundary_r].
  rewrite zip_with_zip_with.
  fold (values_all (lower_boundary_r c) sds).
  change (fun v o => write_dif v.1 (write_dir v.2 o)) with write_passes.
  assert (Hl : length (zip_with write_passes
                         (values_all (lower_boundary_r c) sds) (layers c))
               = length (layers c)).
  { rewrite length_zip_with, length_values_all. lia. }
  rewrite for_each_xrange, scan_down_blend, bind_Ok. reflexivity.
Qed.

(** *** A run that returns has found the contribution of every layer *)

Lemma dir_adding_Ok (x : num * num) (o : canopyLayer.t)
    (r : num * num * canopyLayer.t) :
  dir_adding x o = Ok r -> exists s, seed_of o = Ok s.
Proof.
  unfold dir_adding, seed_of. destruct x as [Ru_last Rc_last].
  destruct (rtDirect o) as [[ru tu]|e]; simpl; [|discriminate].
  destruct (rtDiffuse o) as [[rc tc]|e]; simpl; [|discriminate].
  intros _. eexists. reflexivity.
Qed.

Lemma scan_up_dir_adding_Ok (ls : list canopyLayer.t) (x : num * num)
    (r : num * num * list canopyLayer.t) :
  scan_up dir_adding x ls = Ok r ->
  exists sds, Forall2 (fun o s => seed_of o = Ok s) ls sds.
Proof.
  revert r. induction ls as [|o ls IH]; intros r.
  - intros _. exists []. constructor.
  - cbn [scan_up]. destruct (scan_up dir_adding x ls) as [[x' ls']|e] eqn:E;
      [|discriminate].
    rewrite bind_Ok. cbv beta iota.
    destruct (dir_adding x' o) as [r'|e] eqn:E'; [|discriminate].
    intros _. destruct (IH _ eq_refl) as [sds Hsds].
    destruct (dir_adding_Ok _ _ _ E') as [s Hs].
    exists (s :: sds). by constructor.
Qed.

Lemma getFluxesCanopyDir_Ok (c c' : layeredCanopy.t) :
  getFluxesCanopyDir c = Ok c' ->
  exists sds, Forall2 (fun o s => seed_of o = Ok s) (layers c) sds.
Proof.
  unfold getFluxesCanopyDir, nLayers. rewrite for_each_xrange_down.
  destruct (scan_up dir_adding _ (layers c)) as [r|e] eqn:E; [|discriminate].
  intros _. by apply scan_up_dir_adding_Ok in E.
Qed.

Lemma getFluxes_Ok (c c' : layeredCanopy.t) :
  getFluxes c = Ok c' ->
  exists sds, Forall2 (fun o s => seed_of o = Ok s) (layers c) sds.
Proof.
  unfold getFluxes.
  destruct (getFluxesCanopyDir c) as [c1|e] eqn:E; [|discriminate].
  intros _. by apply getFluxesCanopyDir_Ok in E.
Qed.

Lemma dif_adding_Ok (x : num) (o : canopyLayer.t) (r : num * canopyLayer.t) :
  dif_adding x o = Ok r -> exists rt, rtDiffuse o = Ok rt.
Proof.
  unfold dif_adding.
  destruct (rtDiffuse o) as [rt|e]; simpl; [|discriminate].
  intros _. by exists rt.
Qed.

Lemma scan_up_dif_adding_Ok (ls : list canopyLayer.t) (x : num)
    (r : num * list canopyLayer.t) :
  scan_up dif_adding x ls = Ok r ->
  exists rts, Forall2 (fun o rt => rtDiffuse o = Ok rt) ls rts.
Proof.
  revert r. induction ls as [|o ls IH]; intros r.
  - intros _. exists []. constructor.
  - cbn [scan_up]. destruct (scan_up dif_adding x ls) as [[x' ls']|e] eqn:E;
      [|discriminate].
    rewrite bind_Ok. cbv beta iota.
    destruct (dif_adding x' o) as [r'|e] eqn:E'; [|discriminate].
    intros _. destruct (IH _ eq_refl) as [rts Hrts].
    destruct (dif_adding_Ok _ _ _ E') as [rt Hrt].
    exists (rt :: rts). by constructor.
Qed.

Lemma getFluxesCanopyDif_Ok (c c' : layeredCanopy.t) :
  getFluxesCanopyDif c = Ok c' ->
  exists rts, Forall2 (fun o rt => rtDiffuse o = Ok rt) (layers c) rts.
Proof.
  unfold getFluxesCanopyDif, nLayers. rewrite for_each_xrange_down.
  destruct (scan_up dif_adding _ (layers c)) as [r|e] eqn:E; [|discriminate].
  intros _. by apply scan_up_dif_adding_Ok in E.
Qed.

End Passes.

(** ** Arithmetic on [num] *)

Lemma ndiv_Fin (a b : R) : b <> 0%R -> (Fin a / Fin b)%num = Fin (a / b).
Proof. intros Hb. simpl. destruct (Req_dec_T b 0); [contradiction | reflexivity]. Qed.


Lemma nsqrt_Fin (a : R) : (0 <= a)%R -> nsqrt (Fin a) = Fin (sqrt a).
Proof. intros Ha. simpl. destruct (Rlt_dec a 0); [lra | reflexivity]. Qed.


Lemma nopp_nmul (x y : num) : (- x * y)%num = (- (x * y))%num.
Proof. destruct x, y; simpl; try reflexivity. f_equal. lra. Qed.


Lemma nadd_NaN_r (x : num) : (x + NaN)%num = NaN.
Proof. by destruct x. Qed.



(** ** One layer *)

Section Layer.

Import canopyLayer.

Lemma gamma_scale_delta (o : canopyLayer.t) :
  gamma_scale o "delta" = Ok (Fin 1 / (G o (mu o) * muBar o))%num.
Proof. reflexivity. Qed.



Lemma getGamma_scale (o : canopyLayer.t) (method : string) (scale : num) :
  gamma_scale o method = Ok scale ->
  getGamma o method = Ok (Spec.gamma (B_diffuse o) (B_direct o) (w o) scale).
Proof. intros H. unfold getGamma. rewrite H. reflexivity. Qed.

Lemma gamma_scale_supported (o : canopyLayer.t) (method : string) :
  Spec.supported method <-> exists scale, gamma_scale o method = Ok scale.
Proof.
  split.
  - intros [-> | ->]; eexists; reflexivity.
  - intros [scale H]. unfold gamma_scale in H.
    destruct (String.eqb_spec method "delta"); [by left|].
    destruct (String.eqb_spec method "quad"); [by right | discriminate].
Qed.

Lemma rtDiffuse_gamma (o : canopyLayer.t) (g1 g2 g3 g4 : num) :
  getGamma o (gamma_scaling_diffuse o) = Ok (g1, g2, g3, g4) ->
  rtDiffuse o = Ok (Spec.diffuse g1 g2 (Spec.tau o)).
Proof.
  intros H. unfold rtDiffuse. rewrite H, bind_Ok. cbv beta iota zeta.
  unfold Spec.diffuse, Spec.tau. cbv zeta.
  by rewrite <- !nopp_nmul.
Qed.

End Layer.


(** C2: for a layer whose diffuse scaling method is supported, [rtDiffuse]
    returns the pair (R,T) of the closed forms, with tau = lai*G(mu)*Z(mu),
    k = sqrt(g1^2-g2^2), D = k+g1+(k-g1)*exp(-2k*tau),
    R = g2*(1-exp(-2k*tau))/D, T = 2k*exp(-k*tau)/D, on the coefficients that
    [getGamma] returns for that method: g1=(1-(1-B)w)*scale, g2=(wB)*scale,
    g3=B0, g4=1-g3. *)
Theorem C2_rtDiffuse_closed_form (o : canopyLayer.t) :
  Spec.supported (canopyLayer.gamma_scaling_diffuse o) ->
  exists scale g1 g2 g3 g4,
    canopyLayer.gamma_scale o (canopyLayer.gamma_scaling_diffuse o) = Ok scale
    /\ canopyLayer.getGamma o (canopyLayer.gamma_scaling_diffuse o)
       = Ok (g1, g2, g3, g4)
    /\ (g1, g2, g3, g4)
       = Spec.gamma (canopyLayer.B_diffuse o) (canopyLayer.B_direct o)
           (canopyLayer.w o) scale
    /\ canopyLayer.rtDiffuse o = Ok (Spec.diffuse g1 g2 (Spec.tau o)).
Proof.
  intros [scale Hscale]%(gamma_scale_supported o).
  pose proof (getGamma_scale _ _ _ Hscale) as Hgamma.
  exists scale. do 4 eexists. split; [exact Hscale|].
  split; [exact Hgamma|]. split; [reflexivity|].
  by apply rtDiffuse_gamma in Hgamma.
Qed.

Lemma C2_rtDiffuse_closed_form_witness :
  Spec.supported (canopyLayer.gamma_scaling_diffuse (Examples.default 1))
  /\ exists scale g1 g2 g3 g4,
       canopyLayer.gamma_scale (Examples.default 1) "delta" = Ok scale
       /\ canopyLayer.getGamma (Examples.default 1) "delta" = Ok (g1, g2, g3, g4)
       /\ (g1, g2, g3, g4)
          = Spec.gamma (Fin (1 / 2)) (Fin (1 / 2))
              (canopyLayer.w (Examples.default 1)) scale
       /\ canopyLayer.rtDiffuse (Examples.default 1)
          = Ok (Spec.diffuse g1 g2 (Spec.tau (Examples.default 1))).
Proof.
  split.
  - left. reflexivity.
  - apply (C2_rtDiffuse_closed_form (Examples.default 1)). left. reflexivity.
Defined.

(** ** Reading the attributes after a pass *)

Section Reading.

Import canopyLayer layeredCanopy Adding Written Read.

Lemma fmap_zip_with_write {V W} (f : V -> canopyLayer.t -> canopyLayer.t)
    (read : canopyLayer.t -> W) (val : V -> W)
    (vs : list V) (ls : list canopyLayer.t) :
  (forall v o, read (f v o) = val v) ->
  length vs = length ls ->
  read <$> zip_with f vs ls = val <$> vs.
Proof.
  intros Hf. revert ls. induction vs as [|v vs IH]; intros [|o ls] Hlen;
    try discriminate; [reflexivity|].
  cbn [zip_with]. rewrite !fmap_cons, Hf, IH; [reflexivity|].
  simpl in Hlen. lia.
Qed.

Lemma Forall2_zip_with_write {V} (f : V -> canopyLayer.t -> canopyLayer.t)
    (P : canopyLayer.t -> V -> Prop) (vs : list V) (ls : list canopyLayer.t) :
  (forall v o, P (f v o) v) ->
  length vs = length ls ->
  Forall2 P (zip_with f vs ls) vs.
Proof.
  intros Hf. revert ls. induction vs as [|v vs IH]; intros [|o ls] Hlen;
    simpl in *; try discriminate; constructor; [apply Hf | apply IH; lia].
Qed.

Lemma closure_lookup (lbr : num) (fl : list (num * num)) :
  forall (Idn_above : num) (i : nat) (Iup Idn : num),
  fl !! i = Some (Iup, Idn) ->
  closure lbr Idn_above fl !! i =
  Some (nabs (match fl !! S i with
              | Some f => f.1
              | None => (Idn * lbr)%num
              end - Iup
              + match i with
                | O => Idn_above
                | S j => match fl !! j with
                         | Some f => f.2
                         | None => Idn_above
                         end
                end - Idn)).
Proof.
  induction fl as [|[Iup0 Idn0] fl IH]; intros a i Iup Idn Hi; [discriminate|].
  destruct i as [|i]; simpl in Hi.
  - injection Hi as -> ->. simpl. destruct fl as [|[Iup1 Idn1] fl]; reflexivity.
  - simpl. rewrite (IH Idn0 i Iup Idn Hi). destruct i as [|i]; [reflexivity|].
    simpl. destruct (fl !! i) as [f|] eqn:E; [reflexivity|].
    apply lookup_lt_Some in Hi. apply lookup_ge_None in E. lia.
Qed.

(** The closure computed by recursion is the closure read layer by layer. *)
Lemma closes_closure (get_up get_dn get_ab : canopyLayer.t -> option num)
    (lbr : num) (ls : list canopyLayer.t) (fl : list (num * num)) (i : nat) :
  holds get_up get_dn ls fl ->
  Forall2 (fun o a => get_ab o = Some a) ls (closure lbr (Fin 1) fl) ->
  (i < length ls)%nat ->
  closes get_up get_dn get_ab lbr ls i.
Proof.
  intros Hfl Hab Hi. unfold holds in Hfl.
  pose proof (Forall2_length _ _ _ Hfl) as Hlen.
  destruct (lookup_lt_is_Some_2 ls i Hi) as [o Ho].
  destruct (Forall2_lookup_l _ _ _ _ _ Hfl Ho) as ([Iup Idn] & Hf & Hup & Hdn).
  simpl in Hup, Hdn.
  destruct (Forall2_lookup_l _ _ _ _ _ Hab Ho) as (ab & Hcl & Hgab).
  rewrite (closure_lookup _ _ _ _ _ _ Hf) in Hcl. injection Hcl as <-.
  exists o, Iup, Idn.
  exists (match i with
          | O => Fin 1
          | S j => match fl !! j with Some f => f.2 | None => Fin 1 end
          end).
  exists (match fl !! S i with Some f => f.1 | None => (Idn * lbr)%num end).
  repeat split; try assumption.
  - by intros ->.
  - intros Hne. destruct i as [|j]; [done|]. simpl. rewrite Nat.sub_0_r.
    assert (Hj : (j < length ls)%nat) by lia.
    destruct (lookup_lt_is_Some_2 ls j Hj) as [above Habove].
    destruct (Forall2_lookup_l _ _ _ _ _ Hfl Habove) as (f & Hfj & _ & Hdnj).
    exists above. rewrite Hfj. by split.
  - intros ->. rewrite (lookup_ge_None_2 fl); [reflexivity | lia].
  - intros Hne. assert (Hj : (i + 1 < length ls)%nat) by lia.
    destruct (lookup_lt_is_Some_2 ls (i + 1) Hj) as [below Hbelow].
    destruct (Forall2_lookup_l _ _ _ _ _ Hfl Hbelow) as (f & Hfj & Hupj & _).
    exists below. replace (S i) with (i + 1)%nat by lia. rewrite Hfj. by split.
Qed.

End Reading.

(** ** The claims on the passes *)

Section FirstLoops.

Import canopyLayer layeredCanopy Adding Written Read.

Lemma dif_first_loop (c : layeredCanopy.t) (rts : list (num * num)) :
  Forall2 (fun o rt => rtDiffuse o = Ok rt) (layers c) rts ->
  for_each (at_layer dif_adding) (xrange_down (nLayers c))
    (lower_boundary_r c, layers c) =
  Ok (R_below (lower_boundary_r c) (adding_dif (lower_boundary_r c) rts),
      zip_with write_stored_dif (adding_dif (lower_boundary_r c) rts) (layers c)).
Proof.
  intros H. unfold nLayers. rewrite for_each_xrange_down.
  by apply scan_up_dif_adding.
Qed.

Lemma dir_first_loop (c : layeredCanopy.t) (sds : list seed) :
  Forall2 (fun o s => seed_of o = Ok s) (layers c) sds ->
  for_each (at_layer dir_adding) (xrange_down (nLayers c))
    (lower_boundary_r c, lower_boundary_r c, layers c) =
  Ok (Ru_below (lower_boundary_r c) (adding_dir (lower_boundary_r c) sds),
      Rc_below (lower_boundary_r c) (adding_dir (lower_boundary_r c) sds),
      zip_with write_stored_dir (adding_dir (lower_boundary_r c) sds) (layers c)).
Proof.
  intros H. unfold nLayers. rewrite for_each_xrange_down.
  by apply scan_up_dir_adding.
Qed.

Lemma snd_values_dif (lbr : num) (rts : list (num * num)) :
  (values_dif lbr rts).*2 = fluxes_dif lbr rts.
Proof. unfold values_dif. apply snd_zip. by rewrite length_closure. Qed.

Lemma fst_values_dif (lbr : num) (rts : list (num * num)) :
  (values_dif lbr rts).*1 = closure lbr (Fin 1) (fluxes_dif lbr rts).
Proof. unfold values_dif. apply fst_zip. by rewrite length_closure. Qed.

Lemma snd_values_dir (lbr : num) (sds : list seed) :
  (values_dir lbr sds).*2 = fluxes_dir lbr sds.
Proof.
  unfold values_dir. apply snd_zip. by rewrite length_closure, length_fmap.
Qed.

Lemma fst_values_dir (lbr : num) (sds : list seed) :
  (values_dir lbr sds).*1 = closure lbr (Fin 1) (up_dn <$> fluxes_dir lbr sds).
Proof.
  unfold values_dir. apply fst_zip. by rewrite length_closure, length_fmap.
Qed.

End FirstLoops.

(** C1: the diffuse pass stores on each layer the pair that the bottom-up
    adding recursion gives (from R_last = lower_boundary_r, Z = R_last*R,
    R_new = R + T*T*R_last*(1+Z/(1-Z)), T_new = T*(1+Z/(1-Z)), on the (R,T) of
    the layer's [rtDiffuse]), and then normalises from the top down: the
    final Iup_dif and Idn_dif are the stored ones times the cumulative
    transmission of the layers above, which starts at 1 and takes a layer's
    own stored T after that layer is normalised. *)
Theorem C1_diffuse_pass_adding (c : layeredCanopy.t) (rts : list (num * num)) :
  Forall2 (fun o rt => canopyLayer.rtDiffuse o = Ok rt)
    (layeredCanopy.layers c) rts ->
  let stored := Adding.adding_dif (layeredCanopy.lower_boundary_r c) rts in
  (exists R_last ls,
     for_each (layeredCanopy.at_layer layeredCanopy.dif_adding)
       (xrange_down (layeredCanopy.nLayers c))
       (layeredCanopy.lower_boundary_r c, layeredCanopy.layers c)
     = Ok (R_last, ls)
     /\ Read.dif_fields <$> ls = Read.assigned2 <$> stored)
  /\ exists c',
       layeredCanopy.getFluxesCanopyDif c = Ok c'
       /\ Read.dif_fields <$> layeredCanopy.layers c'
          = Read.assigned2 <$> Adding.normalise_dif (Fin 1) stored.
Proof.
  intros Hrts stored. pose proof (Forall2_length _ _ _ Hrts) as Hlen. split.
  - do 2 eexists. split; [by apply dif_first_loop|].
    apply fmap_zip_with_write; [reflexivity|].
    unfold stored. rewrite length_adding_dif. lia.
  - eexists. split; [by apply getFluxesCanopyDif_ok|].
    cbn [layeredCanopy.layers layeredCanopy.set_layers].
    rewrite (fmap_zip_with_write Written.write_dif Read.dif_fields
               (fun v => Read.assigned2 v.2)).
    + change (Adding.normalise_dif (Fin 1) stored)
        with (Written.fluxes_dif (layeredCanopy.lower_boundary_r c) rts).
      rewrite <- (snd_values_dif (layeredCanopy.lower_boundary_r c) rts).
      by rewrite <- list_fmap_compose.
    + reflexivity.
    + rewrite length_values_dif. lia.
Qed.

(** C3: the direct pass combines, from the bottom up, the uncollided pair
    (Ru,Tu) of [rtDirect] and the collided pair (Rc,Tc) of [rtDiffuse] of
    each layer with what lies below, using Z = Rc_last*Rc for both streams
    and the layer's uncollided direct transmission U:
    RuNew = Ru + U*Ru_last*Tc*(1+Z/(1-Z)) + (Tu-U)*Rc_last*Tc*(1+Z/(1-Z)),
    TuNew = U + U*Ru_last*Rc*(1+Z/(1-Z)) + (Tu-U)*(1+Z/(1-Z)),
    RcNew = Rc + Tc*Rc_last*Tc*(1+Z/(1-Z)), TcNew = Tc*(1+Z/(1-Z));
    the pass then normalises these stored values from the top down. *)
Theorem C3_direct_pass_adding (c : layeredCanopy.t) (sds : list Adding.seed) :
  Forall2 (fun o s =>
             canopyLayer.rtDirect o = Ok (Adding.Ru s, Adding.Tu s)
             /\ canopyLayer.rtDiffuse o = Ok (Adding.Rc s, Adding.Tc s)
             /\ canopyLayer.tUncollidedDirect o = Adding.U s)
    (layeredCanopy.layers c) sds ->
  let stored := Adding.adding_dir (layeredCanopy.lower_boundary_r c) sds in
  (exists last ls,
     for_each (layeredCanopy.at_layer layeredCanopy.dir_adding)
       (xrange_down (layeredCanopy.nLayers c))
       (layeredCanopy.lower_boundary_r c, layeredCanopy.lower_boundary_r c,
        layeredCanopy.layers c)
     = Ok (last, ls)
     /\ Read.dir_fields <$> ls = Read.assigned_stored <$> stored)
  /\ exists c',
       layeredCanopy.getFluxesCanopyDir c = Ok c'
       /\ Read.dir_fields <$> layeredCanopy.layers c'
          = Read.assigned_direct
            <$> Adding.normalise_dir (Fin 1) (Fin 0) (Adding.U <$> sds) stored.
Proof.
  intros Hsds stored.
  assert (Hseeds : Forall2 (fun o s => Written.seed_of o = Ok s)
                     (layeredCanopy.layers c) sds).
  { eapply Forall2_impl; [exact Hsds|]. intros o s H. by apply seed_of_Ok. }
  pose proof (Forall2_length _ _ _ Hsds) as Hlen. split.
  - do 2 eexists. split; [by apply dir_first_loop|].
    apply fmap_zip_with_write; [reflexivity|].
    unfold stored. rewrite length_adding_dir. lia.
  - eexists. split; [by apply getFluxesCanopyDir_ok|].
    cbn [layeredCanopy.layers layeredCanopy.set_layers].
    rewrite (fmap_zip_with_write Written.write_dir Read.dir_fields
               (fun v => Read.assigned_direct v.2)).
    + change (Adding.normalise_dir (Fin 1) (Fin 0) (Adding.U <$> sds) stored)
        with (Written.fluxes_dir (layeredCanopy.lower_boundary_r c) sds).
      rewrite <- (snd_values_dir (layeredCanopy.lower_boundary_r c) sds).
      by rewrite <- list_fmap_compose.
    + reflexivity.
    + rewrite length_values_dir. lia.
Qed.

(** C4: after a flux pass the absorption of every layer i is
    |Iup_below - Iup + Idn_above - Idn|, where Idn_above is 1 for the top
    layer and the Idn of the layer above otherwise, and Iup_below is the
    layer's Idn times lower_boundary_r for the bottom layer and the Iup of the
    layer below otherwise: on the diffuse attributes after the diffuse pass,
    and on the direct attributes after the direct pass. *)
Theorem C4_absorption_closure (c c' : layeredCanopy.t) (i : nat) :
  (i < layeredCanopy.nLayers c)%nat ->
  (layeredCanopy.getFluxesCanopyDif c = Ok c' ->
   Read.closes canopyLayer.Iup_dif canopyLayer.Idn_dif canopyLayer.Iab_dif
     (layeredCanopy.lower_boundary_r c) (layeredCanopy.layers c') i)
  /\ (layeredCanopy.getFluxesCanopyDir c = Ok c' ->
      Read.closes canopyLayer.Iup_dir canopyLayer.Idn_dir canopyLayer.Iab_dir
        (layeredCanopy.lower_boundary_r c) (layeredCanopy.layers c') i).
Proof.
  intros Hi. unfold layeredCanopy.nLayers in Hi. split; intros Hrun.
  - destruct (getFluxesCanopyDif_Ok _ _ Hrun) as [rts Hrts].
    pose proof (Forall2_length _ _ _ Hrts) as Hlen.
    rewrite (getFluxesCanopyDif_ok _ _ Hrts) in Hrun. injection Hrun as <-.
    cbn [layeredCanopy.layers layeredCanopy.set_layers].
    set (lbr := layeredCanopy.lower_boundary_r c).
    assert (Hv : length (Written.values_dif lbr rts)
                 = length (layeredCanopy.layers c)).
    { rewrite length_values_dif. lia. }
    apply (closes_closure _ _ _ _ _ (Written.fluxes_dif lbr rts)).
    + unfold holds. rewrite <- snd_values_dif. apply Forall2_fmap_r.
      by apply Forall2_zip_with_write.
    + rewrite <- fst_values_dif. apply Forall2_fmap_r.
      by apply Forall2_zip_with_write.
    + rewrite length_zip_with. lia.
  - destruct (getFluxesCanopyDir_Ok _ _ Hrun) as [sds Hsds].
    pose proof (Forall2_length _ _ _ Hsds) as Hlen.
    rewrite (getFluxesCanopyDir_ok _ _ Hsds) in Hrun. injection Hrun as <-.
    cbn [layeredCanopy.layers layeredCanopy.set_layers].
    set (lbr := layeredCanopy.lower_boundary_r c).
    assert (Hv : length (Written.values_dir lbr sds)
                 = length (layeredCanopy.layers c)).
    { rewrite length_values_dir. lia. }
    apply (closes_closure _ _ _ _ _
             (Written.up_dn <$> Written.fluxes_dir lbr sds)).
    + unfold holds. rewrite <- snd_values_dir.
      apply Forall2_fmap_r, Forall2_fmap_r.
      by apply Forall2_zip_with_write.
    + rewrite <- fst_values_dir. apply Forall2_fmap_r.
      by apply Forall2_zip_with_write.
    + rewrite length_zip_with. lia.
Qed.

(** ** A layer with finite coefficients *)

Ltac fin := cbn [nadd nsub nmul nopp nexp nabs lift1 lift2].

Section FiniteLayer.

Import canopyLayer.

Context (o : canopyLayer.t) (w g1 g2 g3 g4 tau m : R).
Hypothesis Hw : canopyLayer.w o = Fin w.
Hypothesis Htau : (lai o * G o (mu o) * Z o (mu o))%num = Fin tau.
Hypothesis Hmu : mu o = Fin m.

Lemma rtDiffuse_real :
  getGamma o (gamma_scaling_diffuse o) = Ok (Fin g1, Fin g2, Fin g3, Fin g4) ->
  (0 <= g1 * g1 - g2 * g2)%R ->
  Closed.D_dif g1 g2 tau <> 0%R ->
  rtDiffuse o = Ok (Fin (Closed.R_dif g1 g2 tau), Fin (Closed.T_dif g1 g2 tau)).
Proof.
  intros Hg Hk HD. unfold rtDiffuse. rewrite Hg, bind_Ok. cbv beta iota zeta.
  rewrite Htau. fin. rewrite nsqrt_Fin by assumption. fin.
  rewrite !ndiv_Fin by exact HD. reflexivity.
Qed.



Lemma rtDirect_real :
  getGamma o (gamma_scaling_direct o) = Ok (Fin g1, Fin g2, Fin g3, Fin g4) ->
  (0 <= g1 * g1 - g2 * g2)%R ->
  m <> 0%R ->
  Closed.D_dir g1 g2 tau m <> 0%R ->
  rtDirect o = Ok (Fin (Closed.R_dir w g1 g2 g3 g4 tau m),
                   Fin (Closed.T_dir w g1 g2 g3 g4 tau m)).
Proof.
  intros Hg Hk Hm HD. unfold rtDirect. rewrite Hg, bind_Ok. cbv beta iota zeta.
  rewrite Htau, Hw, Hmu. fin. rewrite nsqrt_Fin by assumption. fin.
  rewrite !(ndiv_Fin _ m) by exact Hm. fin.
  rewrite !ndiv_Fin by exact HD. reflexivity.
Qed.



End FiniteLayer.

(** ** The range of the diffuse closed form *)

Section DiffuseBounds.
Local Open Scope R_scope.
Context (g1 g2 tau : R).
Hypothesis Hg2 : 0 <= g2.
Hypothesis Hg : g2 < g1.
Hypothesis Htau : 0 <= tau.

Lemma k_sqr : Closed.k g1 g2 * Closed.k g1 g2 = g1 * g1 - g2 * g2.
Proof. unfold Closed.k. apply sqrt_sqrt. nra. Qed.

Lemma k_pos : 0 < Closed.k g1 g2.
Proof. unfold Closed.k. apply sqrt_lt_R0. nra. Qed.

Lemma k_le_g1 : Closed.k g1 g2 <= g1.
Proof. pose proof k_sqr. pose proof k_pos. nra. Qed.

Lemma exp_2k :
  exp (- 2 * Closed.k g1 g2 * tau)
  = exp (- Closed.k g1 g2 * tau) * exp (- Closed.k g1 g2 * tau).
Proof. rewrite <- exp_plus. f_equal. lra. Qed.

Lemma exp_k_range :
  0 < exp (- Closed.k g1 g2 * tau) <= 1.
Proof.
  split; [apply exp_pos|].
  rewrite <- exp_0. pose proof k_pos.
  destruct (Req_dec_T (- Closed.k g1 g2 * tau) 0) as [->|Hne]; [lra|].
  left. apply exp_increasing. nra.
Qed.

Lemma D_dif_pos : 0 < Closed.D_dif g1 g2 tau.
Proof.
  unfold Closed.D_dif. rewrite exp_2k.
  pose proof k_pos. pose proof k_le_g1. pose proof exp_k_range.
  set (x := exp (- Closed.k g1 g2 * tau)) in *.
  assert (0 <= x * x <= 1) by nra.
  assert (0 <= (g1 - Closed.k g1 g2) * (1 - x * x)) by (apply Rmult_le_pos; lra).
  lra.
Qed.

End DiffuseBounds.

Lemma dir_factor_pos (g1 g2 tau : R) :
  (0 <= g2)%R -> (g2 < g1)%R -> (0 <= tau)%R ->
  (0 < (Closed.k g1 g2 + g1) * exp (Closed.k g1 g2 * tau)
       + (Closed.k g1 g2 - g1) * exp (- Closed.k g1 g2 * tau))%R.
Proof.
  intros Hg2 Hg Htau.
  pose proof (k_pos g1 g2 Hg2 Hg) as Hk.
  pose proof (k_le_g1 g1 g2 Hg2 Hg) as Hkg.
  pose proof (exp_k_range g1 g2 tau Hg2 Hg Htau) as Hx.
  assert (He : (1 <= exp (Closed.k g1 g2 * tau))%R).
  { rewrite <- exp_0.
    destruct (Req_dec_T (Closed.k g1 g2 * tau) 0) as [->|Hne]; [lra|].
    left. apply exp_increasing. nra. }
  set (x := exp (- Closed.k g1 g2 * tau)) in *.
  set (e := exp (Closed.k g1 g2 * tau)) in *.
  assert ((Closed.k g1 g2 + g1) * 1 <= (Closed.k g1 g2 + g1) * e)%R
    by (apply Rmult_le_compat_l; lra).
  assert (0 <= (g1 - Closed.k g1 g2) * (1 - x))%R
    by (apply Rmult_le_pos; lra).
  lra.
Qed.

(** ** The range of the direct closed form

    exp lies above its tangents, so the slope of its chords grows with
    either end. *)

Section Chords.
Local Open Scope R_scope.






















End Chords.

(** Away from k·mu = 1 the direct closed form divides by a number that is
    not zero, and its pair is in range. *)

Section DirectBounds.
Local Open Scope R_scope.
Context (w g1 g2 g3 tau mu : R).
Hypothesis Hw : 0 <= w <= 1.
Hypothesis Hg2 : 0 <= g2.
Hypothesis Hg : g2 < g1.
Hypothesis Hg3 : 0 <= g3 <= 1.
Hypothesis Htau : 0 <= tau.
Hypothesis Hmu : 0 < mu.
Hypothesis Hres : Closed.k g1 g2 * mu <> 1.


End DirectBounds.

(** ** The example layers *)

Lemma layer_getGamma (m r t lai : R) (dif dir : string) :
  canopyLayer.getGamma (Examples.layer m r t lai dif dir) "delta"
  = Ok (Fin (Seeds.g1 r t), Fin (Seeds.g2 r t), Fin (1 / 2), Fin (1 / 2)).
Proof.
  unfold canopyLayer.getGamma. rewrite gamma_scale_delta, bind_Ok.
  cbn -[nadd nsub nmul ndiv]. unfold canopyLayer.w. cbn [canopyLayer.leaf_r canopyLayer.leaf_t Examples.layer]. fin.
  rewrite ndiv_Fin by lra. fin. unfold Seeds.g1, Seeds.g2.
  repeat f_equal; field.
Qed.

Lemma layer_rtDiffuse (m r t lai : R) (dir : string) :
  (0 <= r + t < 1)%R -> (0 <= lai)%R ->
  canopyLayer.rtDiffuse (Examples.layer m r t lai "delta" dir) = Ok (Seeds.rt_dif r t lai).
Proof.
  intros Hw Hlai. unfold Seeds.rt_dif.
  assert (Hg2 : (0 <= Seeds.g2 r t)%R) by (unfold Seeds.g2; lra).
  assert (Hg : (Seeds.g2 r t < Seeds.g1 r t)%R)
    by (unfold Seeds.g1, Seeds.g2; lra).
  assert (Htau : (0 <= Seeds.tau lai)%R) by (unfold Seeds.tau; lra).
  apply (rtDiffuse_real _ _ _ (1 / 2) (1 / 2)).
  - reflexivity.
  - apply layer_getGamma.
  - nra.
  - pose proof (D_dif_pos _ _ _ Hg2 Hg Htau). lra.
Qed.

Lemma layer_rtDirect (m r t lai : R) (dif : string) :
  (0 <= r + t < 1)%R -> (0 <= lai)%R -> m <> 0%R ->
  ((4 - 4 * (r + t)) * m * m <> 1)%R ->
  canopyLayer.rtDirect (Examples.layer m r t lai dif "delta") = Ok (Seeds.rt_dir m r t lai).
Proof.
  intros Hw Hlai Hm Hkm. unfold Seeds.rt_dir.
  assert (Hg2 : (0 <= Seeds.g2 r t)%R) by (unfold Seeds.g2; lra).
  assert (Hg : (Seeds.g2 r t < Seeds.g1 r t)%R)
    by (unfold Seeds.g1, Seeds.g2; lra).
  assert (Htau : (0 <= Seeds.tau lai)%R) by (unfold Seeds.tau; lra).
  apply rtDirect_real.
  - reflexivity.
  - reflexivity.
  - reflexivity.
  - apply layer_getGamma.
  - nra.
  - exact Hm.
  - unfold Closed.D_dir. cbv zeta.
    pose proof (dir_factor_pos _ _ _ Hg2 Hg Htau) as Hpos.
    pose proof (k_sqr _ _ Hg2 Hg) as Hkk.
    apply Rmult_integral_contrapositive_currified; [|lra].
    rewrite Hkk. unfold Seeds.g1, Seeds.g2. intros Heq. apply Hkm. lra.
Qed.

Lemma layer_tUncollidedDirect (m r t lai : R) (dif dir : string) :
  m <> 0%R ->
  canopyLayer.tUncollidedDirect (Examples.layer m r t lai dif dir) = Seeds.uncollided m lai.
Proof.
  intros Hm. unfold canopyLayer.tUncollidedDirect, Seeds.uncollided.
  cbn -[nadd nsub nmul ndiv nexp nopp]. fin.
  rewrite ndiv_Fin by assumption. reflexivity.
Qed.


Lemma layer_seed_of (m r t lai : R) :
  (0 <= r + t < 1)%R -> (0 <= lai)%R -> m <> 0%R ->
  ((4 - 4 * (r + t)) * m * m <> 1)%R ->
  Written.seed_of (Examples.layer m r t lai "delta" "delta")
  = Ok (Seeds.seed m r t lai).
Proof.
  intros Hw Hlai Hm Hkm. apply seed_of_Ok. unfold Seeds.seed.
  cbn [Adding.Ru Adding.Tu Adding.Rc Adding.Tc Adding.U].
  split; [|split].
  - rewrite layer_rtDirect by assumption. by destruct (Seeds.rt_dir m r t lai).
  - rewrite layer_rtDiffuse by assumption. by destruct (Seeds.rt_dif r t lai).
  - by apply layer_tUncollidedDirect.
Qed.

Lemma three_seeds_of (p : R) :
  Forall2 (fun o s => Written.seed_of o = Ok s)
    (layeredCanopy.layers (Seeds.three p)) Seeds.three_seeds.
Proof.
  repeat constructor; apply layer_seed_of; lra.
Qed.

Lemma three_rts_of (p : R) :
  Forall2 (fun o rt => canopyLayer.rtDiffuse o = Ok rt)
    (layeredCanopy.layers (Seeds.three p)) three_rts.
Proof.
  repeat constructor; apply layer_rtDiffuse; lra.
Qed.

Lemma three_seeds_parts (p : R) :
  Forall2 (fun o s =>
             canopyLayer.rtDirect o = Ok (Adding.Ru s, Adding.Tu s)
             /\ canopyLayer.rtDiffuse o = Ok (Adding.Rc s, Adding.Tc s)
             /\ canopyLayer.tUncollidedDirect o = Adding.U s)
    (layeredCanopy.layers (Seeds.three p)) Seeds.three_seeds.
Proof.
  eapply Forall2_impl; [apply three_seeds_of|].
  intros o s H. by apply seed_of_Ok.
Qed.

Lemma three_getFluxesCanopyDif (p : R) :
  layeredCanopy.getFluxesCanopyDif (Seeds.three p)
  = Ok (Seeds.after_dif (Seeds.three p) three_rts).
Proof. apply getFluxesCanopyDif_ok, three_rts_of. Qed.

Lemma three_getFluxesCanopyDir (p : R) :
  layeredCanopy.getFluxesCanopyDir (Seeds.three p)
  = Ok (Seeds.after_dir (Seeds.three p) Seeds.three_seeds).
Proof. apply getFluxesCanopyDir_ok, three_seeds_of. Qed.

Lemma three_getFluxes (p : R) :
  layeredCanopy.getFluxes (Seeds.three p)
  = Ok (Seeds.after_getFluxes (Seeds.three p) Seeds.three_seeds).
Proof. apply getFluxes_ok, three_seeds_of. Qed.

Lemma C1_diffuse_pass_adding_witness :
  Forall2 (fun o rt => canopyLayer.rtDiffuse o = Ok rt)
    (layeredCanopy.layers (Seeds.three 0)) three_rts
  /\ exists c',
       layeredCanopy.getFluxesCanopyDif (Seeds.three 0) = Ok c'
       /\ Read.dif_fields <$> layeredCanopy.layers c'
          = Read.assigned2
            <$> Adding.normalise_dif (Fin 1)
                  (Adding.adding_dif (Fin (1 / 10)) three_rts).
Proof.
  split; [apply three_rts_of|].
  apply (C1_diffuse_pass_adding (Seeds.three 0) three_rts), three_rts_of.
Defined.

Lemma C3_direct_pass_adding_witness :
  Forall2 (fun o s =>
             canopyLayer.rtDirect o = Ok (Adding.Ru s, Adding.Tu s)
             /\ canopyLayer.rtDiffuse o = Ok (Adding.Rc s, Adding.Tc s)
             /\ canopyLayer.tUncollidedDirect o = Adding.U s)
    (layeredCanopy.layers (Seeds.three 0)) Seeds.three_seeds
  /\ exists last ls,
       for_each (layeredCanopy.at_layer layeredCanopy.dir_adding)
         (xrange_down 3) (Fin (1 / 10), Fin (1 / 10),
                          layeredCanopy.layers (Seeds.three 0))
       = Ok (last, ls)
       /\ Read.dir_fields <$> ls
          = Read.assigned_stored
            <$> Adding.adding_dir (Fin (1 / 10)) Seeds.three_seeds.
Proof.
  split; [apply three_seeds_parts|].
  apply (C3_direct_pass_adding (Seeds.three 0) Seeds.three_seeds),
    three_seeds_parts.
Defined.

Lemma C4_absorption_closure_witness :
  (1 < layeredCanopy.nLayers (Seeds.three 0))%nat
  /\ layeredCanopy.getFluxesCanopyDif (Seeds.three 0)
     = Ok (Seeds.after_dif (Seeds.three 0) three_rts)
  /\ Read.closes canopyLayer.Iup_dif canopyLayer.Idn_dif canopyLayer.Iab_dif
       (Fin (1 / 10))
       (layeredCanopy.layers (Seeds.after_dif (Seeds.three 0) three_rts)) 1.
Proof.
  split; [cbn; lia|]. split; [apply three_getFluxesCanopyDif|].
  apply (C4_absorption_closure (Seeds.three 0)
           (Seeds.after_dif (Seeds.three 0) three_rts) 1).
  - cbn. lia.
  - apply three_getFluxesCanopyDif.
Defined.

(** ** The blend *)





(** ** The layer at the singular point *)









(** ** A run reads the inputs only *)

Section Inputs.

Import canopyLayer.

Lemma seed_of_parameters (o1 o2 : canopyLayer.t) :
  Run.parameters o1 = Run.parameters o2 ->
  Written.seed_of o1 = Written.seed_of o2.
Proof.
  destruct o1, o2. unfold Run.parameters. cbn [geometry mu leaf_r leaf_t lai
    gamma_scaling_diffuse gamma_scaling_direct].
  intros [= -> -> -> -> -> -> ->]. reflexivity.
Qed.

Lemma parameters_write_all (p : num)
    (v : (num * (num * num)) * (num * Adding.direct)) (o : canopyLayer.t) :
  Run.parameters (Written.write_all p v o) = Run.parameters o.
Proof. destruct v as [[? [? ?]] [? ?]]. destruct o. reflexivity. Qed.

Lemma write_all_twice (p : num)
    (v : (num * (num * num)) * (num * Adding.direct)) (o : canopyLayer.t) :
  Written.write_all p v (Written.write_all p v o) = Written.write_all p v o.
Proof.
  destruct v as [[? [? ?]] [? ?]]. destruct o. vm_compute. reflexivity.
Qed.

Lemma flux_fields_write_all (p : num)
    (v : (num * (num * num)) * (num * Adding.direct)) (o1 o2 : canopyLayer.t) :
  Run.flux_fields (Written.write_all p v o1)
  = Run.flux_fields (Written.write_all p v o2).
Proof.
  destruct v as [[? [? ?]] [? ?]]. destruct o1, o2. vm_compute. reflexivity.
Qed.

Lemma zip_with_twice {V} (f : V -> canopyLayer.t -> canopyLayer.t)
    (vs : list V) (ls : list canopyLayer.t) :
  (forall v o, f v (f v o) = f v o) ->
  zip_with f vs (zip_with f vs ls) = zip_with f vs ls.
Proof.
  intros Hf. revert ls. induction vs as [|v vs IH]; intros [|o ls];
    try reflexivity.
  cbn [zip_with]. by rewrite Hf, IH.
Qed.

Lemma seeds_same_parameters (ls1 ls2 : list canopyLayer.t)
    (sds : list Adding.seed) :
  Run.parameters <$> ls1 = Run.parameters <$> ls2 ->
  Forall2 (fun o s => Written.seed_of o = Ok s) ls1 sds ->
  Forall2 (fun o s => Written.seed_of o = Ok s) ls2 sds.
Proof.
  intros Hpar Hsds. revert ls2 Hpar.
  induction Hsds as [|o s ls1 sds Hs _ IH]; intros [|o2 ls2] Hpar;
    try discriminate.
  - constructor.
  - rewrite !fmap_cons in Hpar.
    assert (Ho : Run.parameters o = Run.parameters o2) by congruence.
    assert (Hl : Run.parameters <$> ls1 = Run.parameters <$> ls2)
      by congruence.
    constructor; [by rewrite <- (seed_of_parameters _ _ Ho) | by apply IH].
Qed.

Lemma parameters_zip_with_write_all (p : num)
    (vs : list ((num * (num * num)) * (num * Adding.direct)))
    (ls : list canopyLayer.t) :
  length vs = length ls ->
  Run.parameters <$> zip_with (Written.write_all p) vs ls
  = Run.parameters <$> ls.
Proof.
  revert ls. induction vs as [|v vs IH]; intros [|o ls] Hlen;
    try discriminate; [reflexivity|].
  cbn [zip_with]. rewrite !fmap_cons, parameters_write_all, IH;
    [reflexivity | simpl in Hlen; lia].
Qed.

Lemma flux_fields_zip_with_write_all (p : num)
    (vs : list ((num * (num * num)) * (num * Adding.direct)))
    (ls1 ls2 : list canopyLayer.t) :
  length ls1 = length ls2 ->
  Run.flux_fields <$> zip_with (Written.write_all p) vs ls1
  = Run.flux_fields <$> zip_with (Written.write_all p) vs ls2.
Proof.
  revert ls1 ls2. induction vs as [|v vs IH]; intros [|o1 ls1] [|o2 ls2] Hlen;
    try discriminate; try reflexivity.
  cbn [zip_with]. rewrite !fmap_cons, (flux_fields_write_all p v o1 o2).
  rewrite (IH ls1 ls2); [reflexivity | simpl in Hlen; lia].
Qed.

End Inputs.

(** C9: [getFluxes] is idempotent.  A second call on the stack that a first
    call leaves returns that same stack, flux for flux; and the fluxes of a
    run depend on the inputs only (mu, the leaf properties, lai, the scaling
    methods, lower_boundary_r, propDif), whatever fluxes an earlier call
    left on the layers. *)
Theorem C9_getFluxes_idempotent (c c' : layeredCanopy.t) :
  layeredCanopy.getFluxes c = Ok c' ->
  layeredCanopy.getFluxes c' = Ok c'
  /\ Run.same_inputs c c'
  /\ forall c2, Run.same_inputs c c2 ->
       exists c2', layeredCanopy.getFluxes c2 = Ok c2'
                   /\ Run.fluxes c2' = Run.fluxes c'.
Proof.
  intros Hrun. destruct (getFluxes_Ok _ _ Hrun) as [sds Hsds].
  pose proof (Forall2_length _ _ _ Hsds) as Hlen.
  rewrite (getFluxes_ok _ _ Hsds) in Hrun. injection Hrun as <-.
  set (p := layeredCanopy.propDif c).
  set (vs := Written.values_all (layeredCanopy.lower_boundary_r c) sds).
  assert (Hvs : length vs = length (layeredCanopy.layers c)).
  { unfold vs. rewrite length_values_all. lia. }
  assert (Hpar : Run.parameters
                 <$> zip_with (Written.write_all p) vs (layeredCanopy.layers c)
                 = Run.parameters <$> layeredCanopy.layers c)
    by (by apply parameters_zip_with_write_all).
  split; [|split].
  - rewrite (getFluxes_ok _ sds).
    + cbn [layeredCanopy.layers layeredCanopy.set_layers
           layeredCanopy.propDif layeredCanopy.lower_boundary_r].
      fold p vs. rewrite zip_with_twice by apply write_all_twice.
      reflexivity.
    + cbn [layeredCanopy.layers layeredCanopy.set_layers].
      by apply (seeds_same_parameters (layeredCanopy.layers c)).
  - unfold Run.same_inputs.
    cbn [layeredCanopy.layers layeredCanopy.set_layers layeredCanopy.mu
         layeredCanopy.propDif layeredCanopy.lower_boundary_r].
    by rewrite Hpar.
  - intros c2 (Hmu & Hlbr & Hp & Hls).
    assert (Hsds2 : Forall2 (fun o s => Written.seed_of o = Ok s)
                      (layeredCanopy.layers c2) sds)
      by (by apply (seeds_same_parameters (layeredCanopy.layers c))).
    eexists. split; [by apply getFluxes_ok|].
    unfold Run.fluxes.
    cbn [layeredCanopy.layers layeredCanopy.set_layers].
    rewrite <- Hlbr, <- Hp. fold p vs.
    apply flux_fields_zip_with_write_all.
    apply (f_equal length) in Hls. by rewrite !length_fmap in Hls.
Qed.

Lemma C9_getFluxes_idempotent_witness :
  layeredCanopy.getFluxes (Seeds.three 0)
  = Ok (Seeds.after_getFluxes (Seeds.three 0) Seeds.three_seeds)
  /\ layeredCanopy.getFluxes
       (Seeds.after_getFluxes (Seeds.three 0) Seeds.three_seeds)
     = Ok (Seeds.after_getFluxes (Seeds.three 0) Seeds.three_seeds).
Proof.
  split; [apply three_getFluxes|].
  apply (C9_getFluxes_idempotent (Seeds.three 0)), three_getFluxes.
Defined.

(** ** Both passes run *)







(** Under diffuse light only (propDif = 1) a layer with an unknown direct
    scaling still makes [getFluxes] raise. *)
Example pure_diffuse_run_raises :
  layeredCanopy.propDif Assigned.misconfigured = Fin 1
  /\ layeredCanopy.getFluxes Assigned.misconfigured
     = Raise (TypeError "Unknown gamma scaling type:%s" "eddington").
Proof. split; reflexivity. Qed.

(** ** The range of the pair of a layer *)





Section Range.
Import canopyLayer.










End Range.






(** ** The errors of a layer *)





